(** * slack-advanced-exporter: the archive rewrite pipeline and the users.list client

    A shallow embedding of [cmd/fetch_emails.go] (command [fetch-emails]) and
    of the command [fetch-profile-pictures], with the properties their
    specification states about them.

    Conventions of the embedding.
    - Go [int] is 64 bits wide.  Values of [int] and of [time.Duration] are
      integers of [Z]; the wrap-around of [time.Duration] arithmetic is
      written out ([int64]), and [strconv.Atoi] rejects what does not fit.
    - A Go [map[string]T] is a [gmap string T]; a [nil] map or slice that the
      decoder can leave behind is [None].
    - The HTTP transport is a script: the list of results that successive
      calls of [client.Do] will produce.  A call made when the script is
      exhausted never returns ([Blocked]).
    - The input archive is the list of its entries, each with its header and
      what reading it delivers: its bytes, or nothing when the entry cannot
      be opened or read.  The zip writer is the list of the entries written
      so far, each with the header as [CreateHeader] leaves it; the writer
      may refuse a header, and the handle of a directory entry takes no
      bytes.  A disk that cannot be written is outside the model.
    - Verbose printing and logging are advisory and are left out. *)

From Stdlib Require Import ZArith String Ascii Lia.
From Stdlib Require Strings.Byte.
From stdpp Require Import gmap strings list fin_maps sorting.

Set Warnings "-register-all".
Local Open Scope string_scope.
Local Open Scope Z_scope.

(** ** JSON documents, as the tokenizer of [encoding/json] sees them *)

(** The members of an object are kept in document order, duplicates
    included; a number is kept as its literal. *)
Inductive json :=
| JNull
| JBool (b : bool)
| JNumber (lit : string)
| JString (s : string)
| JArray (elems : list json)
| JObject (members : list (string * json)).

(** ** Headers of archive entries *)

(** [zip.FileHeader]: the name and the metadata that travel with an entry.
    [Modified] is a [time.Time]: the instant, in nanoseconds counted from
    the zero value of [time.Time] (January 1 of year 1, 00:00:00 UTC).
    [CreateHeader] is given a copy of the input header and modifies the
    copy; what it makes of [Method] and [Extra] is [stored] below.  The
    fields it fills in for its own use (versions, flags, sizes, the MS-DOS
    date and time) are not part of the model. *)
Record FileHeader := {
  Name : string;
  Comment : string;
  Method : Z;
  Modified : Z;
  ExternalAttrs : Z;
  Extra : list Byte.byte
}.

(** The compression method [zip.Store]; [zip.Deflate] is 8. *)
Definition Store : Z := 0.

(** [t.IsZero()] *)
Definition IsZero (t : Z) : bool := t =? 0.

(** [t.Unix()]: the whole seconds since January 1, 1970 UTC. *)
Definition unixToInternal : Z := 62135596800.
Definition Unix (t : Z) : Z := t / 1000000000 - unixToInternal.

(** The conversions [uint32(x)] and [uint8(x)], the latter as a byte. *)
Definition uint32 (x : Z) : Z := x mod 2 ^ 32.
Definition uint8 (x : Z) : Byte.byte :=
  default Byte.x00 (Byte.of_N (Z.to_N (x mod 2 ^ 8))).

(** The extended-timestamp block that [CreateHeader] appends to the extra
    field of a header whose [Modified] is set, little-endian throughout:
    the identifier [extTimeExtraID], the size 5, the flags 1 (modification
    time present), and the modification time as [uint32] Unix seconds. *)
Definition extTimeExtraID : Z := 21589.  (* 0x5455 *)

Definition extTimeExtra (modified : Z) : list Byte.byte :=
  let mt := uint32 (Unix modified) in
  [uint8 extTimeExtraID; uint8 (Z.shiftr extTimeExtraID 8);
   uint8 5; uint8 (Z.shiftr 5 8);
   uint8 1;
   uint8 mt; uint8 (Z.shiftr mt 8); uint8 (Z.shiftr mt 16); uint8 (Z.shiftr mt 24)].

(** ** The parts of the Go libraries the program is linked against *)

Class GoLib := {
  (** the values of type [float64] that a decoder can produce *)
  float64 : Type;
  (** [strconv.ParseFloat(lit, 64)] on the literal of a JSON number *)
  ParseFloat : string → option float64;
  (** the literal [encoding/json] prints for a [float64] *)
  FormatFloat : float64 → string;
  (** the first JSON value of a byte stream ([json.Decoder] tokenizer),
      [None] on a syntax error *)
  json_scan : list Byte.byte → option json;
  (** the bytes [json.Encoder] prints for a document once
      [SetIndent("", "    ")] is in force *)
  json_indent : json → list Byte.byte;
  (** whether [http.NewRequest("GET", url, nil)] accepts the URL *)
  NewRequest_ok : string → bool;
  (** whether [zip.Writer] accepts the header it is given (it refuses
      names, comments and extra fields that do not fit the 16-bit lengths of
      the format, and methods it has no compressor for) *)
  header_ok : FileHeader → bool
}.

Section codec.
Context `{L : GoLib}.

(** ** Values of type [interface{}] produced by the decoder *)

Inductive value :=
| Nil
| Bool (b : bool)
| Float64 (f : float64)
| Str (s : string)
| Slice (elems : list value)
| Map (fields : gmap string value).

(** One element of [[]map[string]interface{}]: [None] is the nil map that
    a JSON [null] leaves in the slice. *)
Definition user : Type := option (gmap string value).

(** [var data []map[string]interface{}]: [None] is the nil slice. *)
Definition users : Type := option (list user).

(** [len(data)] *)
Definition len (data : users) : nat :=
  match data with
  | None => 0%nat
  | Some l => length l
  end.

(** [user[key]]: indexing a nil map yields nil, like a missing key. *)
Definition index (u : user) (key : string) : option value :=
  match u with
  | None => None
  | Some m => m !! key
  end.

(** *** Decoding *)

(** Decoding into [interface{}].  The members of an object are stored one
    after the other in the map under construction, so a later duplicate
    replaces an earlier one.  A number whose literal [ParseFloat] rejects
    makes [Decode] return an error. *)
Fixpoint decode (j : json) : option value :=
  match j with
  | JNull => Some Nil
  | JBool b => Some (Bool b)
  | JNumber lit => Float64 <$> ParseFloat lit
  | JString s => Some (Str s)
  | JArray elems =>
      Slice <$> (fix each (l : list json) : option (list value) :=
                   match l with
                   | [] => Some []
                   | j :: l' =>
                       match decode j, each l' with
                       | Some v, Some vs => Some (v :: vs)
                       | _, _ => None
                       end
                   end) elems
  | JObject members =>
      Map <$> (fix store (m : gmap string value) (l : list (string * json))
                 : option (gmap string value) :=
                 match l with
                 | [] => Some m
                 | (k, j) :: l' =>
                     match decode j with
                     | Some v => store (<[k := v]> m) l'
                     | None => None
                     end
                 end) ∅ members
  end.

(** The two local loops of [decode], by name. *)
Definition decode_each : list json → option (list value) :=
  fix each (l : list json) : option (list value) :=
    match l with
    | [] => Some []
    | j :: l' =>
        match decode j, each l' with
        | Some v, Some vs => Some (v :: vs)
        | _, _ => None
        end
    end.

Definition decode_store
  : gmap string value → list (string * json) → option (gmap string value) :=
  fix store (m : gmap string value) (l : list (string * json)) :=
    match l with
    | [] => Some m
    | (k, j) :: l' =>
        match decode j with
        | Some v => store (<[k := v]> m) l'
        | None => None
        end
    end.

(** A measure on values, for induction through maps and slices. *)
Fixpoint vsize (v : value) : nat :=
  match v with
  | Slice elems => S (list_sum (map vsize elems))
  | Map fields => S (list_sum (map snd (map_to_list (vsize <$> fields))))
  | _ => 1%nat
  end.

(** Decoding one element of the slice: an object or [null]. *)
Definition decode_user (j : json) : option user :=
  match j with
  | JNull => Some None
  | JObject _ =>
      match decode j with
      | Some (Map m) => Some (Some m)
      | _ => None
      end
  | _ => None
  end.

(** Decoding into [[]map[string]interface{}]: an array or [null]; anything
    else is a type error. *)
Definition decode_users (j : json) : option users :=
  match j with
  | JNull => Some None
  | JArray elems => Some <$> mapM decode_user elems
  | _ => None
  end.

(** [json.NewDecoder(input).Decode(&data)] *)
Definition Decode (input : list Byte.byte) : option users :=
  json_scan input ≫= decode_users.

(** *** Encoding *)

(** The order in which [encoding/json] prints the keys of a map:
    ascending, byte by byte. *)
Definition key_le (p q : string * json) : Prop :=
  String.leb p.1 q.1 = true.

#[global] Instance key_le_dec : RelDecision key_le.
Proof. intros p q. unfold key_le. apply _. Defined.

Fixpoint encode (v : value) : json :=
  match v with
  | Nil => JNull
  | Bool b => JBool b
  | Float64 f => JNumber (FormatFloat f)
  | Str s => JString s
  | Slice elems => JArray (map encode elems)
  | Map fields => JObject (merge_sort key_le (map_to_list (encode <$> fields)))
  end.

Definition encode_user (u : user) : json :=
  match u with
  | None => JNull
  | Some m => encode (Map m)
  end.

Definition encode_users (data : users) : json :=
  match data with
  | None => JNull
  | Some l => JArray (map encode_user l)
  end.

(** [enc.SetIndent("", "    "); enc.Encode(&data)] *)
Definition Encode (data : users) : list Byte.byte :=
  json_indent (encode_users data).

End codec.

(** The members of an object, in the order of the document. *)
Definition members_of (j : json) : list (string * json) :=
  match j with
  | JObject ms => ms
  | _ => []
  end.

(** The elements of an array. *)
Definition elements_of (j : json) : list json :=
  match j with
  | JArray l => l
  | _ => []
  end.

(** The field names of each record of a collection, in the order of the
    document. *)
Definition field_names (j : json) : list (list string) :=
  match j with
  | JArray records => map (λ r, (members_of r).*1) records
  | _ => []
  end.

(** ** Strings and integers of the Go standard library *)

(** [strings.HasPrefix(s, prefix)] *)
Fixpoint HasPrefix (s prefix : string) : bool :=
  match prefix, s with
  | EmptyString, _ => true
  | String a prefix', String b s' =>
      if Ascii.eqb a b then HasPrefix s' prefix' else false
  | String _ _, EmptyString => false
  end.

(** [strings.HasSuffix(s, suffix)]:
    [len(s) >= len(suffix) && s[len(s)-len(suffix):] == suffix] *)
Definition HasSuffix (s suffix : string) : bool :=
  let n := String.length s in
  let k := String.length suffix in
  (k <=? n)%nat && String.eqb (substring (n - k) k s) suffix.

(** [strings.Split(s, sep)] for a separator of one byte: the pieces of [s]
    between the occurrences of [sep], one more than there are
    occurrences. *)
Fixpoint Split (s : string) (sep : ascii) : list string :=
  match s with
  | EmptyString => [EmptyString]
  | String c s' =>
      if Ascii.eqb c sep then EmptyString :: Split s' sep
      else match Split s' sep with
           | p :: ps => String c p :: ps
           | [] => [String c EmptyString]
           end
  end.

(** The test [downloadPictures] makes on a profile's [image_original]. *)
Definition allowed (imageURL : string) : bool :=
  HasPrefix imageURL "https://avatars.slack-edge.com/"
  && (HasSuffix imageURL ".jpg" || HasSuffix imageURL ".png").

(** [parts[len(parts)-1]] *)
Definition last_part (parts : list string) : string :=
  List.last parts EmptyString.

Definition max_int : Z := 2 ^ 63 - 1.
Definition min_int : Z := - 2 ^ 63.

(** Two's complement reduction to 64 bits: the value an [int64]
    operation leaves. *)
Definition int64 (z : Z) : Z := (z + 2 ^ 63) mod 2 ^ 64 - 2 ^ 63.

Definition digit (c : ascii) : option Z :=
  let n := Z.of_nat (nat_of_ascii c) in
  if (48 <=? n) && (n <=? 57) then Some (n - 48) else None.

Fixpoint digits (s : string) (acc : Z) : option Z :=
  match s with
  | EmptyString => Some acc
  | String c s' =>
      match digit c with
      | Some d => digits s' (10 * acc + d)
      | None => None
      end
  end.

(** [strconv.Atoi(s)]: an optional sign and at least one decimal digit;
    [None] is a non-nil error (syntax, or a value outside [int]). *)
Definition Atoi (s : string) : option Z :=
  let unsigned (body : string) (sign : Z) : option Z :=
    match body with
    | EmptyString => None
    | _ =>
        match digits body 0 with
        | Some n =>
            let v := sign * n in
            if (min_int <=? v) && (v <=? max_int) then Some v else None
        | None => None
        end
    end in
  match s with
  | EmptyString => None
  | String c s' =>
      if Ascii.eqb c "+" then unsigned s' 1
      else if Ascii.eqb c "-" then unsigned s' (-1)
      else unsigned s 1
  end.

(** [func min(a, b int) int] *)
Definition min (a b : Z) : Z := if a <? b then a else b.

(** ** [time.Duration]: nanoseconds in an [int64] *)

Definition Second : Z := 1000000000.

(** [time.Duration(n) * time.Second] *)
Definition seconds (n : Z) : Z := int64 (int64 n * Second).

(** [time.Duration(1<<min(attempt, 3)) * time.Second] *)
Definition backoff (attempt : Z) : Z := seconds (Z.shiftl 1 (min attempt 3)).

(** ** The HTTP transport *)

(** What the program reads of a response.  [RetryAfter] is
    [resp.Header.Get("Retry-After")], the empty string when the header is
    absent. *)
Record Response (B : Type) := {
  StatusCode : Z;
  RetryAfter : string;
  Body : B
}.
Arguments StatusCode {B} _.
Arguments RetryAfter {B} _.
Arguments Body {B} _.

(** The two results of [client.Do(req)]. *)
Inductive DoResult (B : Type) :=
| DoErr (err : string)
| DoOk (resp : Response B).
Arguments DoErr {B} _.
Arguments DoOk {B} _.

(** Modelled from the spec: the type [SlackUser], declared in a file of the
    package that is not part of the sources at hand.  The specification says
    each member object has an identifier and a nested profile object with an
    email field; the program reads [user.Id] and [user.Profile.Email]. *)
Record SlackUser := {
  Id : string;
  Profile_Email : string
}.

(** The anonymous struct a page of [users.list] is decoded into. *)
Record UsersPage := {
  Ok : bool;
  Members : list SlackUser;
  NextCursor : string
}.

(** The body of a [users.list] response, seen through
    [json.NewDecoder(resp.Body).Decode(&data)]: the struct as the decoder
    left it and the error it returned, if any.  (A decoder that meets a
    value of the wrong type skips that field, goes on, and returns the
    error at the end.) *)
Record PageBody := {
  data : UsersPage;
  decode_err : option string
}.

(** What the program does to the outside world, in order. *)
Inductive event :=
| UsersList (limit : Z) (cursor : string) (token : string)
    (** GET https://slack.com/api/users.list with these query values and
        bearer token; the cursor value is not sent when it is empty *)
| Get (url : string)
| Sleep (d : Z).
    (** [time.Sleep(d)], [d] in nanoseconds *)

Inductive error :=
| DecodeError            (** [Decode] of users.json failed *)
| BodyError (msg : string) (** [Decode] of a response body failed *)
| HTTPCode (code : Z)    (** "Slack API returned HTTP code %d" *)
| LackOfOk               (** "Unexpected lack of ok=true in Slack API response..." *)
| NoUsers                (** "Failed to find any users in users.json..." *)
| BuildRequest           (** "Got error %s when building the request" *)
| OpenError              (** "Failed to open file in input archive: ..." *)
| CreateError            (** "Failed to create file in output archive: ..." *)
| WriteError.            (** the handle of the entry returned an error *)

(** How a call ends: with a value, with an error, or not at all. *)
Inductive outcome (A : Type) :=
| Returns (a : A)
| Fails (e : error)
| Blocked.
Arguments Returns {A} _.
Arguments Fails {A} _.
Arguments Blocked {A}.

(** ** The users.list client ([fetchUserEmails]) *)

(** The page size selection at the head of [fetchUserEmails]. *)
Definition boundPageLimit (usersPageLimit : Z) : Z :=
  let usersPageLimit := if usersPageLimit <=? 0 then 200 else usersPageLimit in
  let usersPageLimit := if usersPageLimit >? 999 then 999 else usersPageLimit in
  usersPageLimit.

(** Which of the two verbose lines reports the selection. *)
Inductive limit_line :=
| AboveRecommended (limit : Z)  (** "users.list limit set to %d (>200). ..." *)
| WithinRecommended (limit : Z). (** "users.list limit set to %d." *)

Definition limitLine (usersPageLimit : Z) : limit_line :=
  if usersPageLimit >? 200 then AboveRecommended usersPageLimit
  else WithinRecommended usersPageLimit.

(** One turn of the inner loop [for attempt := 0; ; attempt++]: either the
    loop sleeps and goes round again, or it is left with a response.
    ([http.NewRequest] does not fail here: the endpoint is a constant
    followed by [url.Values.Encode()].) *)
Inductive attempt_verdict :=
| Retry (d : Z)
| Break (resp : Response PageBody).

Definition attemptOnce (attempt : Z) (r : DoResult PageBody) : attempt_verdict :=
  match r with
  | DoErr _ => Retry (backoff attempt)
  | DoOk resp =>
      if StatusCode resp =? 429 then
        let ra := RetryAfter resp in
        let waitSec :=
          if String.eqb ra "" then 1
          else match Atoi ra with
               | Some v => v
               | None => 1
               end in
        Retry (seconds waitSec)
      else if StatusCode resp >=? 500 then Retry (backoff attempt)
      else Break resp
  end.

(** What follows the inner loop, up to the test of the cursor. *)
Inductive page_verdict :=
| Abort (e : error)
| Page (members : list SlackUser) (next : string).

Definition readPage (resp : Response PageBody) : page_verdict :=
  if negb (StatusCode resp =? 200) then Abort (HTTPCode (StatusCode resp))
  else match decode_err (Body resp) with
       | Some msg => Abort (BodyError msg)
       | None =>
           if negb (Ok (data (Body resp))) then Abort LackOfOk
           else Page (Members (data (Body resp))) (NextCursor (data (Body resp)))
       end.

(** [for _, user := range data.Members { ... res[user.Id] = ... }] *)
Definition collect (members : list SlackUser) (res : gmap string string)
  : gmap string string :=
  foldl (λ res user,
           if negb (String.eqb (Id user) "") && negb (String.eqb (Profile_Email user) "")
           then <[Id user := Profile_Email user]> res
           else res)
        res members.

(** The two nested loops of [fetchUserEmails], by recursion on the script
    of the transport: every turn of either loop issues one request.  The
    state of the loops is the cursor, the attempt counter and the table; the
    counters [total] and [page] only feed the log.  The result is the
    outcome, the events in order, and what is left of the script.

    The attempt counter is not reduced to 64 bits: it counts requests, and
    no run issues 2^63 of them. *)
Fixpoint usersListLoop (limit : Z) (token : string) (pace : bool)
    (script : list (DoResult PageBody))
    (cursor : string) (attempt : Z) (res : gmap string string)
  : outcome (gmap string string) * list event * list (DoResult PageBody) :=
  let request := UsersList limit cursor token in
  match script with
  | [] => (Blocked, [request], [])
  | r :: script' =>
      match attemptOnce attempt r with
      | Retry d =>
          let '(o, evs, rest) :=
            usersListLoop limit token pace script' cursor (attempt + 1) res in
          (o, request :: Sleep d :: evs, rest)
      | Break resp =>
          match readPage resp with
          | Abort e => (Fails e, [request], script')
          | Page members next =>
              let res := collect members res in
              if String.eqb next "" then (Returns res, [request], script')
              else
                let '(o, evs, rest) :=
                  usersListLoop limit token pace script' next 0 res in
                (o, request :: (if pace then [Sleep (seconds 1)] else []) ++ evs, rest)
          end
      end
  end.

(** ** Archives *)

(** An entry of the input archive ([*zip.File]).  [stream] is what
    [file.Open()] and reading to the end deliver: the bytes of the entry, or
    [None] when the entry cannot be opened or read (a compression method
    the reader does not support, damaged data). *)
Record File := {
  Header : FileHeader;
  stream : option (list Byte.byte)
}.

(** An entry of the output archive. *)
Record Entry := {
  header : FileHeader;
  written : list Byte.byte
}.

(** The header [w.Create(name)] makes: [&FileHeader{Name: name, Method: Deflate}]. *)
Definition created (name : string) : FileHeader :=
  {| Name := name; Comment := ""; Method := 8; Modified := 0;
     ExternalAttrs := 0; Extra := [] |}.

(** A name that ends in a slash is the name of a directory. *)
Definition is_dir (name : string) : bool := HasSuffix name "/".

(** The header as [w.CreateHeader(&h)] leaves it, and writes it to the
    archive.  When [Modified] is set, the extended-timestamp block is
    appended to the extra field, after whatever the field held.  The method
    of a directory is set to [Store]. *)
Definition stored (h : FileHeader) : FileHeader :=
  {| Name := Name h;
     Comment := Comment h;
     Method := if is_dir (Name h) then Store else Method h;
     Modified := Modified h;
     ExternalAttrs := ExternalAttrs h;
     Extra := if IsZero (Modified h) then Extra h
              else Extra h ++ extTimeExtra (Modified h) |}.

(** The package-level variables set from the command line. *)
Record Globals := {
  emailsApiToken : string;
  usersPageLimit : Z;
  usersPace1RPS : bool
}.

(** ** State of a run *)

Record State (B : Type) := {
  zip : list Entry;            (** entries of the zip writer, newest first *)
  script : list (DoResult B);  (** what the transport will answer *)
  events : list event;         (** requests and sleeps so far, oldest first *)
  globals : Globals
}.
Arguments zip {B} _.
Arguments script {B} _.
Arguments events {B} _.
Arguments globals {B} _.

(** A computation over the state of a run.  The state is kept when the
    computation fails or blocks, so that what happened before is visible. *)
Definition M (B A : Type) : Type := State B → outcome A * State B.

#[global] Instance M_ret {B} : MRet (M B) := λ A a st, (Returns a, st).

#[global] Instance M_bind {B} : MBind (M B) := λ A A' k c st,
  match c st with
  | (Returns a, st') => k a st'
  | (Fails e, st') => (Fails e, st')
  | (Blocked, st') => (Blocked, st')
  end.

Definition fail {B A} (e : error) : M B A := λ st, (Fails e, st).

(** Reading a package-level variable. *)
Definition global {B A} (field : Globals → A) : M B A := λ st,
  (Returns (field (globals st)), st).

(** Writing through the handle of the entry begun last.  The handle of a
    directory takes no bytes: its [Write] returns an error unless
    [len(b) == 0]. *)
Definition Write {B} (b : list Byte.byte) : M B unit := λ st,
  match zip st with
  | e :: z =>
      if is_dir (Name (header e)) && negb (length b =? 0)%nat then
        (Fails WriteError, st)
      else
        (Returns tt,
         {| zip := {| header := header e; written := written e ++ b |} :: z;
            script := script st; events := events st; globals := globals st |})
  | [] => (Returns tt, st)
  end.

(** An error that is logged and otherwise ignored. *)
Definition logged {B} (c : M B unit) : M B unit := λ st,
  match c st with
  | (Fails _, st') => (Returns tt, st')
  | r => r
  end.

(** [httpClient.Do(req)] for a GET of [url]: the request goes out; the
    next result of the script comes back, if there is one. *)
Definition Do {B} (url : string) : M B (DoResult B) := λ st,
  let st' := {| zip := zip st; script := tail (script st);
                events := events st ++ [Get url]; globals := globals st |} in
  match script st with
  | [] => (Blocked, st')
  | r :: _ => (Returns r, st')
  end.

(** The archive the zip writer holds, oldest entry first. *)
Definition archive {B} (st : State B) : list Entry := rev (zip st).

Section pipeline.
Context `{L : GoLib}.

(** ** The zip reader and writer *)

(** [file.Open()], with the reading that follows. *)
Definition Open {B} (file : File) : M B (list Byte.byte) :=
  match stream file with
  | Some inReader => mret inReader
  | None => fail OpenError
  end.

(** [w.CreateHeader(&h)]: a new entry is begun, unless the writer refuses
    the header.  The entry gets the header as the call leaves it. *)
Definition CreateHeader {B} (h : FileHeader) : M B unit := λ st,
  if header_ok h then
    (Returns tt,
     {| zip := {| header := stored h; written := [] |} :: zip st; script := script st;
        events := events st; globals := globals st |})
  else (Fails CreateError, st).

(** [w.Create(name)] *)
Definition Create {B} (name : string) : M B unit := CreateHeader (created name).

(** ** [fetchUserEmails] *)

Definition fetchUserEmails (token : string) : M PageBody (gmap string string) := λ st,
  let limit := boundPageLimit (usersPageLimit (globals st)) in
  let '(o, evs, rest) :=
    usersListLoop limit token (usersPace1RPS (globals st)) (script st) "" 0 ∅ in
  (o, {| zip := zip st; script := rest; events := events st ++ evs;
         globals := {| emailsApiToken := emailsApiToken (globals st);
                       usersPageLimit := limit;
                       usersPace1RPS := usersPace1RPS (globals st) |} |}).

(** ** [processUsersJson] *)

(** [profile[key] = v], seen from the record that holds the profile: the
    map is shared, so the record changes with it. *)
Definition setProfile (u : gmap string value) (profile : gmap string value)
    (key : string) (v : value) : user :=
  Some (<["profile" := Map (<[key := v]> profile)]> u).

(** The body of the loop over [data] in [processUsersJson]. *)
Definition updateUser (emails : gmap string string) (u : user) : user :=
  match u with
  | None => u
  | Some m =>
      match m !! "id" with
      | Some (Str userid) =>
          match m !! "profile" with
          | Some (Map profile) =>
              let email := default "" (emails !! userid) in
              setProfile m profile "email" (Str email)
          | _ => u
          end
      | _ => u
      end
  end.

Definition updateUsers (emails : gmap string string) (data : users) : users :=
  map (updateUser emails) <$> data.

Definition processUsersJson (input : list Byte.byte) (slackApiToken : string)
  : M PageBody unit :=
  match Decode input with
  | None => fail DecodeError
  | Some data =>
      emails ← fetchUserEmails slackApiToken;
      if (len data =? 0)%nat then fail NoUsers
      else Write (Encode (updateUsers emails data))
  end.

(** ** [fetchEmails] *)

(** The loop over [r.File]. *)
Fixpoint fetchEmailsFiles (files : list File) : M PageBody unit :=
  match files with
  | [] => mret tt
  | file :: files' =>
      inReader ← Open file;
      CreateHeader (Header file);;
      (if String.eqb (Name (Header file)) "users.json"
       then token ← global emailsApiToken;
            processUsersJson inReader token
       else Write inReader);;
      fetchEmailsFiles files'
  end.

(** How the process ends. *)
Inductive ending :=
| Finished (out : list Entry)  (** the output archive is closed; status 0 *)
| Exit (code : Z)              (** [os.Exit(code)] *)
| Hangs.                       (** a request never returns *)

Definition ending_of {B} (r : outcome unit * State B) : ending :=
  match r with
  | (Returns _, st) => Finished (archive st)
  | (Fails _, _) => Exit 1
  | (Blocked, _) => Hangs
  end.

Definition start {B} (g : Globals) (transport : list (DoResult B)) : State B :=
  {| zip := []; script := transport; events := []; globals := g |}.

Definition fetchEmails (g : Globals) (transport : list (DoResult PageBody))
    (input : list File) : ending * list event :=
  let r := fetchEmailsFiles input (start g transport) in
  (ending_of r, events r.2).

(** ** [downloadPictures] *)

(** The body of the loop over [data] in [downloadPictures]. *)
Definition downloadPicture (u : user) : M (list Byte.byte) user :=
  match u with
  | None => mret u
  | Some m =>
      match m !! "id" with
      | Some (Str userid) =>
          match m !! "profile" with
          | Some (Map profile) =>
              match profile !! "image_original" with
              | Some (Str imageURL) =>
                  if allowed imageURL then
                    let parts := Split imageURL "." in
                    let extension := "." ++ last_part parts in
                    if negb (NewRequest_ok imageURL) then fail BuildRequest
                    else
                      r ← Do imageURL;
                      match r with
                      | DoErr _ => mret u
                      | DoOk response =>
                          let picFileName := "profile_pictures/" ++ userid ++ extension in
                          Create picFileName;;
                          logged (Write (Body response));;
                          mret (setProfile m profile "image_path" (Str picFileName))
                      end
                  else mret u
              | _ => mret u
              end
          | _ => mret u
          end
      | _ => mret u
      end
  end.

Fixpoint downloadAll (data : list user) : M (list Byte.byte) (list user) :=
  match data with
  | [] => mret []
  | u :: data' =>
      u' ← downloadPicture u;
      rest ← downloadAll data';
      mret (u' :: rest)
  end.

Definition downloadPictures (input : list Byte.byte) : M (list Byte.byte) unit :=
  match Decode input with
  | None => fail DecodeError
  | Some data =>
      data' ← match data with
               | None => mret None
               | Some l => l' ← downloadAll l; mret (Some l')
               end;
      Create "users.json";;
      Write (Encode data')
  end.

(** ** [fetchProfilePics] *)

Fixpoint fetchProfilePicsFiles (files : list File) : M (list Byte.byte) unit :=
  match files with
  | [] => mret tt
  | file :: files' =>
      inReader ← Open file;
      (if String.eqb (Name (Header file)) "users.json"
       then downloadPictures inReader
       else CreateHeader (Header file);; Write inReader);;
      fetchProfilePicsFiles files'
  end.

Definition fetchProfilePics (g : Globals) (transport : list (DoResult (list Byte.byte)))
    (input : list File) : ending * list event :=
  let r := fetchProfilePicsFiles input (start g transport) in
  (ending_of r, events r.2).

End pipeline.

(** ** Vocabulary of the statements *)

(** What copying an input entry produces: the header as [CreateHeader]
    leaves it, and the bytes read. *)
Definition copy (f : File) : Entry :=
  {| header := stored (Header f); written := default [] (stream f) |}.

(** The entry can be read, the writer accepts its header, and its bytes
    can be written: a directory has none. *)
Definition copyable `{L : GoLib} (f : File) : bool :=
  match stream f with
  | Some inReader =>
      header_ok (Header f)
      && negb (is_dir (Name (Header f)) && negb (length inReader =? 0)%nat)
  | None => false
  end.

(** The archive under construction only grows. *)
Definition grows {B} (st st' : State B) : Prop :=
  ∃ new : list Entry, zip st' = (new ++ zip st)%list.

(** The state once the entries [es] have been written, in this order. *)
Definition put (es : list Entry) {B} (st : State B) : State B :=
  {| zip := (rev es ++ zip st)%list; script := script st; events := events st;
     globals := globals st |}.

(** The requests among the events, and the sleeps. *)
Definition is_request (ev : event) : bool :=
  match ev with
  | UsersList _ _ _ | Get _ => true
  | Sleep _ => false
  end.

Definition requests (evs : list event) : list event := List.filter is_request evs.

Definition sleeps (evs : list event) : list Z :=
  omap (λ ev, match ev with Sleep d => Some d | _ => None end) evs.

(** The classes of results of a users.list request.  [retryable]: a
    transport failure, HTTP 429, or a status of 500 and above. *)
Definition retryable (r : DoResult PageBody) : bool :=
  match r with
  | DoErr _ => true
  | DoOk resp => (StatusCode resp =? 429) || (StatusCode resp >=? 500)
  end.

(** A page served: HTTP 200, a body that decodes, and [ok] true. *)
Definition served (r : DoResult PageBody) : bool :=
  match r with
  | DoErr _ => false
  | DoOk resp =>
      (StatusCode resp =? 200)
      && bool_decide (decode_err (Body resp) = None)
      && Ok (data (Body resp))
  end.

(** The cursor a response carries. *)
Definition cursor_of (r : DoResult PageBody) : string :=
  match r with
  | DoErr _ => ""
  | DoOk resp => NextCursor (data (Body resp))
  end.

(** A page served that announces another page. *)
Definition more_pages (r : DoResult PageBody) : bool :=
  served r && negb (String.eqb (cursor_of r) "").

(** A status other than 200 outside the retryable classes. *)
Definition bad_status (r : DoResult PageBody) : bool :=
  match r with
  | DoErr _ => false
  | DoOk resp =>
      negb (StatusCode resp =? 200) && negb (StatusCode resp =? 429)
      && negb (StatusCode resp >=? 500)
  end.

(** HTTP 200 with a body whose [ok] is not true. *)
Definition lacks_ok (r : DoResult PageBody) : bool :=
  match r with
  | DoErr _ => false
  | DoOk resp => (StatusCode resp =? 200) && negb (Ok (data (Body resp)))
  end.

(** HTTP 200 with a body on which [Decode] returns an error. *)
Definition undecodable (r : DoResult PageBody) : bool :=
  match r with
  | DoErr _ => false
  | DoOk resp =>
      (StatusCode resp =? 200) && negb (bool_decide (decode_err (Body resp) = None))
  end.

(** The outcome is an error. *)
Definition failed {A} (o : outcome A) : bool :=
  match o with
  | Fails _ => true
  | _ => false
  end.

(** The call came to an end. *)
Definition completed {A} (o : outcome A) : bool :=
  match o with
  | Blocked => false
  | _ => true
  end.

(** ** A runtime to evaluate the definitions with

    Numbers are kept as their literals; the byte syntax knows two
    documents: [sample_doc], spelled [sample_bytes], and the empty
    collection, spelled [empty_bytes]. *)

Definition sample_doc : json :=
  JArray [JObject [("id", JString "U123");
                   ("name", JString "ann");
                   ("profile",
                    JObject [("image_original",
                              JString "https://avatars.slack-edge.com/2020-01-01/U123_512.jpg");
                             ("title", JNumber "7")])];
          JObject [("name", JString "bot")]].

#[global] Instance byte_eq_dec : EqDecision Byte.byte :=
  Stdlib.Strings.Byte.byte_eq_dec.

Definition sample_bytes : list Byte.byte := [Byte.x5b; Byte.x7b; Byte.x7d; Byte.x5d].

Definition empty_bytes : list Byte.byte := [Byte.x5b; Byte.x5d].

Definition literals : GoLib :=
  {| float64 := string;
     ParseFloat := Some;
     FormatFloat := id;
     json_scan := λ b, if decide (b = sample_bytes) then Some sample_doc
                       else if decide (b = empty_bytes) then Some (JArray [])
                       else None;
     json_indent := λ j, match j with
                         | JArray [] => empty_bytes
                         | _ => sample_bytes
                         end;
     NewRequest_ok := λ _, true;
     header_ok := λ _, true |}.

(** The first record of [sample_doc], decoded. *)
Definition sample_url : string :=
  "https://avatars.slack-edge.com/2020-01-01/U123_512.jpg".

Definition sample_profile : gmap string (@value literals) :=
  {["image_original" := Str sample_url; "title" := Float64 ("7" : @float64 literals)]}.

Definition sample_user : gmap string (@value literals) :=
  {["id" := Str "U123"; "name" := Str "ann"; "profile" := Map sample_profile]}.

(** A record whose fields are not in ascending order. *)
Definition unsorted_doc : json :=
  JArray [JObject [("name", JString "ann"); ("id", JString "U123")]].

(** A served page of users.list. *)
Definition page (members : list SlackUser) (next : string) : DoResult PageBody :=
  DoOk {| StatusCode := 200; RetryAfter := "";
          Body := {| data := {| Ok := true; Members := members; NextCursor := next |};
                     decode_err := None |} |}.

(** A response without a usable body. *)
Definition status (code : Z) (retryAfter : string) : DoResult PageBody :=
  DoOk {| StatusCode := code; RetryAfter := retryAfter;
          Body := {| data := {| Ok := false; Members := []; NextCursor := "" |};
                     decode_err := Some "unexpected end of JSON input" |} |}.

(** HTTP 200 with [{"ok": true, "members": 7}]: the decoder sets [Ok],
    cannot store a number in [Members], and returns an error. *)
Definition ok_but_mistyped : DoResult PageBody :=
  DoOk {| StatusCode := 200; RetryAfter := "";
          Body := {| data := {| Ok := true; Members := []; NextCursor := "" |};
                     decode_err := Some "json: cannot unmarshal number into Go struct field .members of type []cmd.SlackUser" |} |}.

Definition sample_globals : Globals :=
  {| emailsApiToken := "xoxp-1"; usersPageLimit := 999; usersPace1RPS := true |}.

(** 2020-01-01T00:00:00Z as a [time.Time]. *)
Definition new_year_2020 : Z := (unixToInternal + 1577836800) * 1000000000.

Definition channels_json : File :=
  {| Header := {| Name := "channels.json"; Comment := ""; Method := 8;
                  Modified := new_year_2020; ExternalAttrs := 2175008768;
                  Extra := [] |};
     stream := Some [Byte.x5b; Byte.x5d; Byte.x0a] |}.

(** A directory, which the tool that made the archive stored deflated. *)
Definition general_dir : File :=
  {| Header := {| Name := "general/"; Comment := ""; Method := 8;
                  Modified := new_year_2020; ExternalAttrs := 1106051088;
                  Extra := [] |};
     stream := Some [] |}.

(** An entry compressed with a method the reader does not support. *)
Definition notes_txt : File :=
  {| Header := {| Name := "notes.txt"; Comment := ""; Method := 93;
                  Modified := new_year_2020; ExternalAttrs := 2175008768;
                  Extra := [] |};
     stream := None |}.

Definition empty_users_json : File :=
  {| Header := {| Name := "users.json"; Comment := ""; Method := 8;
                  Modified := new_year_2020; ExternalAttrs := 2175008768;
                  Extra := [] |};
     stream := Some empty_bytes |}.

Definition users_json : File :=
  {| Header := {| Name := "users.json"; Comment := ""; Method := 8;
                  Modified := new_year_2020; ExternalAttrs := 2175008768;
                  Extra := [] |};
     stream := Some sample_bytes |}.

(** * Properties *)

Local Open Scope list_scope.

(** ** The record codec *)

Section codec_facts.
Context `{L : GoLib}.

Lemma list_sum_elem (l : list nat) (n : nat) : n ∈ l → (n ≤ list_sum l)%nat.
Proof. induction 1; simpl; lia. Qed.

Lemma vsize_field (m : gmap string value) (k : string) (v : value) :
  m !! k = Some v → (vsize v < vsize (Map m))%nat.
Proof.
  intros Hk. simpl.
  assert (vsize v ∈ map snd (map_to_list (vsize <$> m))) as Hin.
  { apply list_elem_of_fmap. exists (k, vsize v). split; [done|].
    apply elem_of_map_to_list. by rewrite lookup_fmap, Hk. }
  apply list_sum_elem in Hin. lia.
Qed.

Lemma vsize_elem (l : list value) (v : value) :
  v ∈ l → (vsize v < vsize (Slice l))%nat.
Proof.
  intros Hin. simpl.
  assert (vsize v ∈ map vsize l) as H by (by apply list_elem_of_fmap_2).
  apply list_sum_elem in H. lia.
Qed.

(** Induction on values that reaches the fields of maps and the elements
    of slices. *)
Lemma value_ind_nested (P : value → Prop) :
  P Nil → (∀ b, P (Bool b)) → (∀ f, P (Float64 f)) → (∀ s, P (Str s)) →
  (∀ l, Forall P l → P (Slice l)) →
  (∀ m, map_Forall (λ _ v, P v) m → P (Map m)) →
  ∀ v, P v.
Proof.
  intros HN HB HF HS HL HM v.
  remember (vsize v) as n eqn:Hn. revert v Hn.
  induction n as [n IH] using lt_wf_ind. intros v ->.
  destruct v; auto.
  - apply HL. apply Forall_forall. intros v Hv.
    eapply IH; [|reflexivity]. by apply vsize_elem.
  - apply HM. intros k v Hk. eapply IH; [|reflexivity]. by eapply vsize_field.
Qed.

Lemma decode_each_encode (l : list value) :
  Forall (λ v, decode (encode v) = Some v) l →
  decode_each (map encode l) = Some l.
Proof.
  induction 1 as [|v l Hv _ IH]; simpl; [done|].
  by rewrite Hv, IH.
Qed.

(** What [decode_store] leaves when no key occurs twice. *)
Lemma decode_store_lookup (ms : list (string * json)) :
  NoDup ms.*1 →
  (∀ k j, (k, j) ∈ ms → is_Some (decode j)) →
  ∀ m0, ∃ m, decode_store m0 ms = Some m ∧
    ∀ k, m !! k = match (list_to_map ms : gmap string json) !! k with
                  | Some j => decode j
                  | None => m0 !! k
                  end.
Proof.
  induction ms as [|[k0 j0] ms IH]; intros Hnd Hdec m0.
  - exists m0. split; [done|]. intros k. simpl. by rewrite lookup_empty.
  - apply NoDup_cons in Hnd as [Hk0 Hnd].
    destruct (Hdec k0 j0) as [v0 Hv0]; [left|].
    destruct (IH Hnd (λ k j H, Hdec k j (list_elem_of_further _ _ _ H)) (<[k0:=v0]> m0))
      as (m & Hm & Hlook).
    exists m. split.
    + simpl. by rewrite Hv0.
    + intros k. rewrite Hlook. simpl.
      destruct (decide (k = k0)) as [->|Hne].
      * rewrite lookup_insert_eq.
        rewrite (not_elem_of_list_to_map_1 _ k0 Hk0).
        by rewrite lookup_insert_eq.
      * by rewrite !lookup_insert_ne.
Qed.

#[local] Instance key_le_total : Total key_le.
Proof. intros p q. unfold key_le. apply String.leb_total. Qed.

(** The fields of an encoded map: one member for each key, in ascending
    order of the keys. *)
Lemma encode_Map_members (m : gmap string value) :
  let ms := members_of (encode (Map m)) in
  encode (Map m) = JObject ms
  ∧ Sorted key_le ms
  ∧ NoDup ms.*1
  ∧ ∀ k j, (k, j) ∈ ms ↔ encode <$> m !! k = Some j.
Proof.
  simpl.
  assert (merge_sort key_le (map_to_list (encode <$> m))
          ≡ₚ map_to_list (encode <$> m)) as Hperm by apply merge_sort_Permutation.
  repeat split.
  - apply (Sorted_merge_sort key_le).
  - rewrite Hperm. apply NoDup_fst_map_to_list.
  - rewrite Hperm. intros Hin. apply elem_of_map_to_list in Hin.
    by rewrite lookup_fmap in Hin.
  - rewrite Hperm. intros Hin. apply elem_of_map_to_list.
    by rewrite lookup_fmap.
Qed.

Section law.
Hypothesis Parse_Format : ∀ f, ParseFloat (FormatFloat f) = Some f.

Lemma decode_encode (v : value) : decode (encode v) = Some v.
Proof.
  induction v as [| b | f | s | l IH | m IH] using value_ind_nested; simpl; try done.
  - by rewrite Parse_Format.
  - change (Slice <$> decode_each (map encode l) = Some (Slice l)).
    by rewrite decode_each_encode.
  - change (Map <$> decode_store ∅ (merge_sort key_le (map_to_list (encode <$> m)))
            = Some (Map m)).
    destruct (encode_Map_members m) as (_ & _ & Hnd & Hin). simpl in Hnd, Hin.
    set (ms := merge_sort key_le (map_to_list (encode <$> m))) in *.
    assert (list_to_map ms = encode <$> m) as Hmap.
    { apply map_eq. intros k. apply option_eq. intros j.
      rewrite <- elem_of_list_to_map by done. rewrite Hin. by rewrite lookup_fmap. }
    destruct (decode_store_lookup ms Hnd) with (m0 := (∅ : gmap string value))
      as (m' & Hm' & Hlook).
    { intros k j Hkj. apply Hin in Hkj.
      destruct (m !! k) as [v|] eqn:Hk; [|done]. simpl in Hkj.
      injection Hkj as <-. rewrite (IH k v Hk). eauto. }
    rewrite Hm'. simpl. do 2 f_equal. apply map_eq. intros k.
    rewrite Hlook, Hmap, lookup_fmap.
    destruct (m !! k) as [v|] eqn:Hk; simpl; [by apply (IH k)|apply lookup_empty].
Qed.

Lemma decode_encode_user (u : user) : decode_user (encode_user u) = Some u.
Proof.
  destruct u as [m|]; [|done].
  unfold encode_user, decode_user.
  rewrite (decode_encode (Map m)).
  by destruct (encode_Map_members m) as (-> & _).
Qed.

Lemma decode_encode_users (d : users) : decode_users (encode_users d) = Some d.
Proof.
  destruct d as [l|]; [|done]. simpl. f_equal.
  replace (mapM decode_user (map encode_user l)) with (Some l); [done|].
  symmetry. apply mapM_Some. induction l as [|u l IH]; constructor; [|done].
  apply decode_encode_user.
Qed.
End law.

(** C6, as amended.  When numbers print to literals that parse back to
    them, re-encoding the decoded collection and decoding it again gives the
    decoded collection itself: the same records in the same order, each with
    the same fields and values, whatever the fields are.  The re-encoded
    record lists every field once, under its name, in ascending order of the
    names, not in the order of the original document. *)
Theorem round_trip_of_fields
    (Parse_Format : ∀ f, ParseFloat (FormatFloat f) = Some f)
    (original : json) (d : users) :
  decode_users original = Some d →
  decode_users (encode_users d) = Some d
  ∧ ∀ m, let ms := members_of (encode_user (Some m)) in
      encode_user (Some m) = JObject ms
      ∧ Sorted key_le ms
      ∧ NoDup ms.*1
      ∧ ∀ k j, (k, j) ∈ ms ↔ encode <$> m !! k = Some j.
Proof.
  intros _. split.
  - by apply decode_encode_users.
  - intros m. apply encode_Map_members.
Qed.

End codec_facts.

(** C6 as stated fails on the order of the fields: a record written with
    [name] before [id] comes back with [id] before [name]. *)
Lemma field_order_not_kept :
  ∃ d, decode_users (L := literals) unsorted_doc = Some d
       ∧ field_names unsorted_doc = [["name"; "id"]]
       ∧ field_names (encode_users d) = [["id"; "name"]]
       ∧ field_names (encode_users d) ≠ field_names unsorted_doc.
Proof.
  eexists. split; [reflexivity|]. split; [reflexivity|].
  split; [vm_compute; reflexivity|]. vm_compute. discriminate.
Qed.

Lemma round_trip_of_fields_witness :
  decode_users (L := literals) (encode_users (L := literals)
    (Some [Some {["id" := Str "U123"; "name" := Str "ann"]}]))
  = Some (Some [Some {["id" := Str "U123"; "name" := Str "ann"]}]).
Proof.
  refine (proj1 (round_trip_of_fields (L := literals) _ unsorted_doc _ _)).
  - intros f. reflexivity.
  - vm_compute. reflexivity.
Defined.

(** ** Records: the e-mail update and the skips *)

Section record_facts.
Context `{L : GoLib}.



Lemma updateUser_no_id (emails : gmap string string) (u : user) :
  (∀ s, index u "id" ≠ Some (Str s)) → updateUser emails u = u.
Proof.
  intros Hno. destruct u as [m|]; [|done]. simpl in *.
  destruct (m !! "id") as [[]|]; try done. by destruct (Hno s).
Qed.

Lemma downloadPicture_no_id (u : user) (st : State (list Byte.byte)) :
  (∀ s, index u "id" ≠ Some (Str s)) → downloadPicture u st = (Returns u, st).
Proof.
  intros Hno. destruct u as [m|]; [|done]. simpl in *.
  destruct (m !! "id") as [[]|]; try done. by destruct (Hno s).
Qed.

Lemma downloadAll_cons (u : user) (after : list user) (st : State (list Byte.byte)) :
  downloadAll (u :: after) st
  = match downloadPicture u st with
    | (Returns u', st1) =>
        match downloadAll after st1 with
        | (Returns rest, st2) => (Returns (u' :: rest), st2)
        | (Fails e, st2) => (Fails e, st2)
        | (Blocked, st2) => (Blocked, st2)
        end
    | (Fails e, st1) => (Fails e, st1)
    | (Blocked, st1) => (Blocked, st1)
    end.
Proof.
  simpl. unfold mbind, M_bind, mret, M_ret.
  by destruct (downloadPicture u st) as [[u'|e|] st1].
Qed.

(** A record without a string [id] is where it was, as it was, among the
    records [downloadPictures] goes on to encode. *)
Lemma downloadAll_no_id (u : user) (data : list user) :
  (∀ s, index u "id" ≠ Some (Str s)) →
  ∀ i st data' st',
    data !! i = Some u →
    downloadAll data st = (Returns data', st') →
    data' !! i = Some u.
Proof.
  intros Hno. induction data as [|x data IH]; intros i st data' st' Hi; [done|].
  rewrite downloadAll_cons.
  destruct i as [|i]; simpl in Hi.
  - injection Hi as ->. rewrite downloadPicture_no_id by done.
    destruct (downloadAll data st) as [[rest|e|] st2]; try done.
    by intros [= <- _].
  - destruct (downloadPicture x st) as [[x'|e|] st1]; try done.
    destruct (downloadAll data st1) as [[rest|e|] st2] eqn:Hrest; try done.
    intros [= <- _]. simpl. by apply (IH i st1 rest st2).
Qed.

(** C8.  A record without a string [id] is left as it is by both loops.
    In [processUsersJson] the records before and after it are updated as
    usual and the record is encoded at its place.  In [downloadPictures] the
    step returns the record, touches neither the archive nor the transport,
    and the loop goes on with the records that follow: it ends as they make
    it end, and the record is at its place among the records to encode. *)
Theorem record_without_id_skipped (u : user) :
  (∀ s, index u "id" ≠ Some (Str s)) →
  (∀ emails, updateUser emails u = u)
  ∧ (∀ emails before after,
       updateUsers emails (Some (before ++ u :: after))
       = Some (map (updateUser emails) before ++ u :: map (updateUser emails) after))
  ∧ (∀ emails (data : list user) i, data !! i = Some u →
       elements_of (encode_users (updateUsers emails (Some data))) !! i
       = Some (encode_user u))
  ∧ (∀ st, downloadPicture u st = (Returns u, st))
  ∧ (∀ after st,
       downloadAll (u :: after) st
       = match downloadAll after st with
         | (Returns rest, st') => (Returns (u :: rest), st')
         | (Fails e, st') => (Fails e, st')
         | (Blocked, st') => (Blocked, st')
         end)
  ∧ (∀ (data : list user) i st data' st',
       data !! i = Some u →
       downloadAll data st = (Returns data', st') →
       elements_of (encode_users (Some data')) !! i = Some (encode_user u)).
Proof.
  intros Hno. repeat split.
  - intros emails. by apply updateUser_no_id.
  - intros emails before after. simpl.
    by rewrite map_app, (map_cons _ u), updateUser_no_id.
  - intros emails data i Hi. simpl.
    unfold user in *. rewrite !list_lookup_fmap, Hi. simpl.
    by rewrite updateUser_no_id.
  - intros st. by apply downloadPicture_no_id.
  - intros after st. by rewrite downloadAll_cons, downloadPicture_no_id.
  - intros data i st data' st' Hi Hrun. simpl.
    rewrite list_lookup_fmap, (downloadAll_no_id u data Hno i st data' st' Hi Hrun).
    done.
Qed.

End record_facts.


Lemma record_without_id_skipped_witness :
  updateUser (L := literals) {["U123" := "ann@example.org"]}
    (Some {["name" := Str "bot"]})
  = Some {["name" := Str "bot"]}.
Proof.
  apply (record_without_id_skipped (L := literals) (Some {["name" := Str "bot"]})).
  intros s. vm_compute. discriminate.
Defined.

(** ** The users.list client *)

Section client_facts.

Implicit Types (r : DoResult PageBody) (script : list (DoResult PageBody)).
Implicit Types (res : gmap string string) (cursor token : string).

(** *** Delays *)

Lemma seconds_exact (n : Z) :
  -9223372036 ≤ n ≤ 9223372036 → seconds n = n * Second.
Proof.
  intros Hn. unfold seconds, int64, Second.
  rewrite (Z.mod_small (n + 2 ^ 63)) by lia.
  replace (n + 2 ^ 63 - 2 ^ 63) with n by lia.
  rewrite Z.mod_small by lia. lia.
Qed.

Lemma backoff_exponential (attempt : Z) :
  0 ≤ attempt →
  backoff attempt = 2 ^ Z.min attempt 3 * Second
  ∧ backoff attempt ≤ 8 * Second.
Proof.
  intros Hpos. unfold backoff, min.
  assert (Z.shiftl 1 (if attempt <? 3 then attempt else 3) = 2 ^ Z.min attempt 3) as ->.
  { rewrite Z.shiftl_1_l. f_equal. destruct (Z.ltb_spec attempt 3); lia. }
  assert (1 ≤ 2 ^ Z.min attempt 3 ≤ 8) as Hb.
  { assert (Z.min attempt 3 = 0 ∨ Z.min attempt 3 = 1 ∨ Z.min attempt 3 = 2
            ∨ Z.min attempt 3 = 3) as [-> | [-> | [-> | ->]]] by lia; simpl; lia. }
  rewrite seconds_exact by lia. unfold Second. lia.
Qed.

(** *** One turn of the attempt loop *)

Lemma attemptOnce_retryable (attempt : Z) r :
  retryable r = true ↔ ∃ d, attemptOnce attempt r = Retry d.
Proof.
  destruct r as [err|resp]; simpl.
  - split; eauto.
  - destruct (StatusCode resp =? 429); simpl; [split; eauto|].
    destruct (StatusCode resp >=? 500); simpl; [split; eauto|].
    split; [done|]. by intros [d Hd].
Qed.

Lemma attemptOnce_Break (attempt : Z) r :
  retryable r = false → ∃ resp, r = DoOk resp ∧ attemptOnce attempt r = Break resp.
Proof.
  destruct r as [err|resp]; simpl; [done|].
  intros H. apply orb_false_iff in H as [-> ->]. eauto.
Qed.

(** *** One turn of the page loop *)

Lemma readPage_served (resp : Response PageBody) :
  served (DoOk resp) = true →
  readPage resp = Page (Members (data (Body resp))) (NextCursor (data (Body resp))).
Proof.
  unfold served, readPage.
  intros H. apply andb_true_iff in H as [H Hok]. apply andb_true_iff in H as [Hs Hd].
  apply bool_decide_eq_true in Hd. by rewrite Hs, Hd, Hok.
Qed.

Lemma readPage_Abort (resp : Response PageBody) :
  bad_status (DoOk resp) || lacks_ok (DoOk resp) || undecodable (DoOk resp) = true
  → ∃ e, readPage resp = Abort e.
Proof.
  unfold bad_status, lacks_ok, undecodable, readPage. intros H.
  destruct (StatusCode resp =? 200); simpl in *; [|by eauto].
  destruct (decode_err (Body resp)) as [msg|]; simpl in *; [by eauto|].
  destruct (Ok (data (Body resp))); simpl in *; [|by eauto].
  exfalso. try rewrite bool_decide_eq_true_2 in H by done. done.
Qed.

(** Every result is of one class: it is retried, it ends the call with an
    error, or it is a page. *)
Lemma result_classes r :
  retryable r = true
  ∨ (retryable r = false
     ∧ bad_status r || lacks_ok r || undecodable r = true)
  ∨ (retryable r = false ∧ served r = true).
Proof.
  destruct r as [err|resp]; simpl; [by left|].
  destruct (StatusCode resp =? 429) eqn:H429; simpl; [by left|].
  destruct (StatusCode resp >=? 500) eqn:H500; simpl; [by left|].
  right. destruct (StatusCode resp =? 200); simpl; [|by left].
  destruct (decode_err (Body resp)); simpl.
  - left. split; [done|]. by rewrite orb_true_r.
  - destruct (Ok (data (Body resp))); simpl; [by right|by left].
Qed.

Lemma served_not_retryable r : served r = true → retryable r = false.
Proof.
  destruct r as [err|resp]; simpl; [done|].
  intros H. apply andb_true_iff in H as [H _]. apply andb_true_iff in H as [H _].
  apply Z.eqb_eq in H. rewrite H. reflexivity.
Qed.

Lemma served_not_terminal r :
  served r = true → bad_status r || lacks_ok r || undecodable r = false.
Proof.
  destruct r as [err|resp]; simpl; [done|].
  intros H. apply andb_true_iff in H as [H Hok]. apply andb_true_iff in H as [Hs Hd].
  rewrite Hs, Hd, Hok. reflexivity.
Qed.

Lemma terminal_not_retryable r :
  retryable r = true → bad_status r || lacks_ok r || undecodable r = false.
Proof.
  destruct r as [err|resp]; simpl; [done|].
  intros H. destruct (StatusCode resp =? 200) eqn:Hs; simpl.
  - apply Z.eqb_eq in Hs. rewrite Hs in H. done.
  - apply orb_true_iff in H as [-> | ->]; simpl; [done|]. by rewrite andb_false_r.
Qed.

(** *** The loop, one result at a time *)

Section loop.
Variables (limit : Z) (token : string) (pace : bool).

Lemma loop_cons r script cursor (attempt : Z) res :
  usersListLoop limit token pace (r :: script) cursor attempt res
  = match attemptOnce attempt r with
    | Retry d =>
        let '(o, evs, rest) :=
          usersListLoop limit token pace script cursor (attempt + 1) res in
        (o, UsersList limit cursor token :: Sleep d :: evs, rest)
    | Break resp =>
        match readPage resp with
        | Abort e => (Fails e, [UsersList limit cursor token], script)
        | Page members next =>
            if String.eqb next "" then
              (Returns (collect members res), [UsersList limit cursor token], script)
            else
              let '(o, evs, rest) :=
                usersListLoop limit token pace script next 0 (collect members res) in
              (o, UsersList limit cursor token
                  :: (if pace then [Sleep (seconds 1)] else []) ++ evs, rest)
        end
    end.
Proof. reflexivity. Qed.

Lemma loop_retry r script cursor (attempt : Z) res :
  retryable r = true →
  ∃ d, attemptOnce attempt r = Retry d
    ∧ usersListLoop limit token pace (r :: script) cursor attempt res
      = let '(o, evs, rest) :=
          usersListLoop limit token pace script cursor (attempt + 1) res in
        (o, UsersList limit cursor token :: Sleep d :: evs, rest).
Proof.
  intros Hr. apply (attemptOnce_retryable attempt) in Hr as [d Hd].
  exists d. split; [done|]. by rewrite loop_cons, Hd.
Qed.

Lemma loop_terminal r script cursor (attempt : Z) res :
  retryable r = false →
  bad_status r || lacks_ok r || undecodable r = true →
  ∃ e, usersListLoop limit token pace (r :: script) cursor attempt res
       = (Fails e, [UsersList limit cursor token], script).
Proof.
  intros Hr Ht. destruct (attemptOnce_Break attempt r Hr) as (resp & -> & Hb).
  destruct (readPage_Abort resp Ht) as [e He].
  exists e. by rewrite loop_cons, Hb, He.
Qed.

Lemma loop_last_page r script cursor (attempt : Z) res :
  served r = true → cursor_of r = "" →
  ∃ table, usersListLoop limit token pace (r :: script) cursor attempt res
           = (Returns table, [UsersList limit cursor token], script).
Proof.
  intros Hs Hc.
  destruct (attemptOnce_Break attempt r (served_not_retryable r Hs)) as (resp & -> & Hb).
  eexists. rewrite loop_cons, Hb, (readPage_served resp Hs).
  simpl in Hc. by rewrite Hc.
Qed.

Lemma loop_more_pages r script cursor (attempt : Z) res :
  more_pages r = true →
  ∃ table,
    usersListLoop limit token pace (r :: script) cursor attempt res
    = let '(o, evs, rest) :=
        usersListLoop limit token pace script (cursor_of r) 0 table in
      (o, UsersList limit cursor token
          :: (if pace then [Sleep (seconds 1)] else []) ++ evs, rest).
Proof.
  intros Hm. apply andb_true_iff in Hm as [Hs Hc].
  destruct (attemptOnce_Break attempt r (served_not_retryable r Hs)) as (resp & -> & Hb).
  eexists. rewrite loop_cons, Hb, (readPage_served resp Hs).
  simpl in Hc. destruct (String.eqb _ "") eqn:E; [done|]. reflexivity.
Qed.

Lemma requests_pacing (evs : list event) :
  requests ((if pace then [Sleep (seconds 1)] else []) ++ evs) = requests evs.
Proof. by destruct pace. Qed.

(** Every request of the loop carries the page size and the token it was
    given, and the loop issues at least one. *)
Lemma loop_requests script cursor (attempt : Z) res :
  let evs := (usersListLoop limit token pace script cursor attempt res).1.2 in
  head evs = Some (UsersList limit cursor token)
  ∧ Forall (λ ev, ∃ c, ev = UsersList limit c token) (requests evs).
Proof.
  revert cursor attempt res.
  induction script as [|r script IH]; intros cursor attempt res.
  { simpl. split; [done|]. repeat constructor. by exists cursor. }
  destruct (result_classes r) as [Hr | [[Hr Ht] | [Hr Hs]]].
  - destruct (loop_retry r script cursor attempt res Hr) as (d & _ & ->).
    specialize (IH cursor (attempt + 1) res).
    destruct (usersListLoop _ _ _ script _ _ _) as [[o evs] rest]. simpl in *.
    split; [done|]. constructor; [by exists cursor|apply IH].
  - destruct (loop_terminal r script cursor attempt res Hr Ht) as (e & ->). simpl.
    split; [done|]. repeat constructor. by exists cursor.
  - destruct (String.eqb (cursor_of r) "") eqn:Hc.
    + apply String.eqb_eq in Hc.
      destruct (loop_last_page r script cursor attempt res Hs Hc) as (table & ->). simpl.
      split; [done|]. repeat constructor. by exists cursor.
    + destruct (loop_more_pages r script cursor attempt res) as (table & ->).
      { unfold more_pages. by rewrite Hs, Hc. }
      specialize (IH (cursor_of r) 0 table).
      destruct (usersListLoop _ _ _ script _ _ _) as [[o evs] rest]. simpl in *.
      split; [done|].
      change (Forall (λ ev, ∃ c, ev = UsersList limit c token)
                (UsersList limit cursor token
                 :: requests ((if pace then [Sleep (seconds 1)] else []) ++ evs))).
      rewrite requests_pacing. constructor; [by exists cursor|apply IH].
Qed.

(** Results that are all retried keep the client asking. *)
Lemma retried_without_end script cursor (attempt : Z) res :
  Forall (λ r, retryable r = true) script →
  ∃ evs, usersListLoop limit token pace script cursor attempt res = (Blocked, evs, [])
         ∧ length (requests evs) = S (length script).
Proof.
  intros Hall. revert attempt.
  induction Hall as [|r script Hr _ IH]; intros attempt.
  - eexists. split; reflexivity.
  - destruct (loop_retry r script cursor attempt res Hr) as (d & _ & ->).
    destruct (IH (attempt + 1)) as (evs & -> & Hlen).
    eexists. split; [reflexivity|]. simpl. by rewrite Hlen.
Qed.

End loop.
End client_facts.

Section client_claims.

Implicit Types (r : DoResult PageBody) (script : list (DoResult PageBody)).
Implicit Types (res : gmap string string) (cursor token : string).

(** *** Page size *)

Lemma boundPageLimit_range (n : Z) :
  1 ≤ boundPageLimit n ≤ 999
  ∧ (n ≤ 0 → boundPageLimit n = 200)
  ∧ (999 < n → boundPageLimit n = 999)
  ∧ (0 < n ≤ 999 → boundPageLimit n = n).
Proof.
  unfold boundPageLimit.
  destruct (Z.leb_spec n 0); [simpl; lia|].
  destruct (Z.gtb_spec n 999); lia.
Qed.

(** C9.  Whatever page size the command line left in [usersPageLimit],
    [fetchUserEmails] first brings it into the range from 1 to 999: zero and
    negative values become 200, values above 999 become 999, and a value
    between 201 and 999 is kept and only reported by the line for sizes
    above the recommended 200.  Every request of the call, from the first
    one on, carries the bounded size, and the variable keeps it. *)
Theorem page_size_bounded (token : string) (st : State PageBody) :
  let n := usersPageLimit (globals st) in
  let sent := boundPageLimit n in
  1 ≤ sent ≤ 999
  ∧ (n ≤ 0 → sent = 200)
  ∧ (999 < n → sent = 999)
  ∧ (0 < n ≤ 999 → sent = n)
  ∧ (200 < n → limitLine sent = AboveRecommended sent)
  ∧ (∃ evs, events (fetchUserEmails token st).2 = events st ++ evs
       ∧ head evs = Some (UsersList sent "" token)
       ∧ Forall (λ ev, ∃ c, ev = UsersList sent c token) (requests evs))
  ∧ usersPageLimit (globals (fetchUserEmails token st).2) = sent.
Proof.
  intros n sent.
  destruct (boundPageLimit_range n) as (Hr & H0 & H999 & Hkeep).
  repeat split; try done; try lia.
  - intros Hn. unfold limitLine.
    assert (200 < sent) as Hs.
    { destruct (Z.leb_spec n 999); [unfold sent; rewrite Hkeep; lia|].
      unfold sent. rewrite H999; lia. }
    destruct (Z.gtb_spec sent 200); [done|lia].
  - unfold fetchUserEmails.
    pose proof (loop_requests sent token (usersPace1RPS (globals st))
                  (script st) "" 0 ∅) as Hreq.
    fold n. fold sent.
    destruct (usersListLoop sent token _ (script st) "" 0 ∅) as [[o evs] rest].
    exists evs. simpl in *. by destruct Hreq.
  - unfold fetchUserEmails. fold n. fold sent.
    by destruct (usersListLoop sent token _ (script st) "" 0 ∅) as [[o evs] rest].
Qed.

(** *** Pagination *)

Section pagination.
Variables (limit : Z) (token : string) (pace : bool).

Lemma pages_then_last (pages : list (DoResult PageBody)) r script cursor
    (attempt : Z) res :
  Forall (λ r, more_pages r = true) pages →
  served r = true → cursor_of r = "" →
  ∃ table evs,
    usersListLoop limit token pace (pages ++ r :: script) cursor attempt res
    = (Returns table, evs, script)
    ∧ requests evs
      = map (λ c, UsersList limit c token) (cursor :: map cursor_of pages).
Proof.
  intros Hpages Hs Hc. revert cursor attempt res.
  induction Hpages as [|p pages Hp _ IH]; intros cursor attempt res.
  - destruct (loop_last_page limit token pace r script cursor attempt res Hs Hc)
      as (table & Heq).
    rewrite app_nil_l, Heq. by eexists _, _.
  - destruct (loop_more_pages limit token pace p (pages ++ r :: script)
                cursor attempt res Hp) as (table & Heq).
    destruct (IH (cursor_of p) 0 table) as (table' & evs & Hloop & Hreq).
    rewrite <- app_comm_cons, Heq, Hloop.
    eexists _, _. split; [reflexivity|].
    change (UsersList limit cursor token
            :: requests ((if pace then [Sleep (seconds 1)] else []) ++ evs)
            = map (λ c, UsersList limit c token)
                (cursor :: map cursor_of (p :: pages))).
    by rewrite requests_pacing, Hreq.
Qed.

Lemma pages_then_waiting (pages : list (DoResult PageBody)) cursor
    (attempt : Z) res :
  Forall (λ r, more_pages r = true) pages →
  ∃ evs,
    usersListLoop limit token pace pages cursor attempt res = (Blocked, evs, [])
    ∧ requests evs
      = map (λ c, UsersList limit c token) (cursor :: map cursor_of pages).
Proof.
  intros Hpages. revert cursor attempt res.
  induction Hpages as [|p pages Hp _ IH]; intros cursor attempt res.
  - by eexists.
  - destruct (loop_more_pages limit token pace p pages cursor attempt res Hp)
      as (table & Heq).
    destruct (IH (cursor_of p) 0 table) as (evs & Hloop & Hreq).
    rewrite Heq, Hloop.
    eexists. split; [reflexivity|].
    change (UsersList limit cursor token
            :: requests ((if pace then [Sleep (seconds 1)] else []) ++ evs)
            = map (λ c, UsersList limit c token)
                (cursor :: map cursor_of (p :: pages))).
    by rewrite requests_pacing, Hreq.
Qed.

(** C4.  When the transport serves pages whose cursors are not empty and
    then a page whose cursor is empty, the client returns after that page:
    it has issued one request for each page served, the first without a
    cursor and each next one with the cursor of the page before, and it has
    not touched what the transport had left.  After pages whose cursors are
    all not empty the client has not stopped: it has issued the request for
    the next page. *)
Theorem one_request_for_each_page (pages : list (DoResult PageBody))
    (last : DoResult PageBody) (left : list (DoResult PageBody)) :
  Forall (λ r, more_pages r = true) pages →
  served last = true →
  cursor_of last = "" →
  (∃ table evs,
     usersListLoop limit token pace (pages ++ last :: left) "" 0 ∅
     = (Returns table, evs, left)
     ∧ requests evs
       = map (λ c, UsersList limit c token) ("" :: map cursor_of pages)
     ∧ length (requests evs) = length (pages ++ [last]))
  ∧ (∃ evs,
       usersListLoop limit token pace pages "" 0 ∅ = (Blocked, evs, [])
       ∧ length (requests evs) = S (length pages)).
Proof.
  intros Hpages Hs Hc. split.
  - destruct (pages_then_last pages last left "" 0 ∅ Hpages Hs Hc)
      as (table & evs & Hloop & Hreq).
    exists table, evs. split; [done|]. split; [done|].
    rewrite Hreq, length_app. simpl. rewrite !length_map. lia.
  - destruct (pages_then_waiting pages "" 0 ∅ Hpages) as (evs & Hloop & Hreq).
    exists evs. split; [done|]. rewrite Hreq. simpl. by rewrite !length_map.
Qed.

(** *** Failures *)

Lemma terminal_retryable_false r :
  bad_status r || lacks_ok r || undecodable r = true → retryable r = false.
Proof.
  intros Ht. destruct (retryable r) eqn:Hr; [|done].
  by rewrite (terminal_not_retryable r Hr) in Ht.
Qed.

Lemma fails_at (before : list (DoResult PageBody)) r after cursor (attempt : Z) res :
  Forall (λ r, retryable r || more_pages r = true) before →
  bad_status r || lacks_ok r || undecodable r = true →
  ∃ e evs,
    usersListLoop limit token pace (before ++ r :: after) cursor attempt res
    = (Fails e, evs, after)
    ∧ length (requests evs) = S (length before).
Proof.
  intros Hbefore Ht. revert cursor attempt res.
  induction Hbefore as [|p before Hp _ IH]; intros cursor attempt res.
  - destruct (loop_terminal limit token pace r after cursor attempt res
                (terminal_retryable_false r Ht) Ht) as (e & Heq).
    rewrite app_nil_l, Heq. by eexists _, _.
  - rewrite <- app_comm_cons.
    apply orb_true_iff in Hp as [Hp | Hp].
    + destruct (loop_retry limit token pace p (before ++ r :: after)
                  cursor attempt res Hp) as (d & _ & ->).
      destruct (IH cursor (attempt + 1) res) as (e & evs & -> & Hlen).
      eexists _, _. split; [reflexivity|]. simpl. by rewrite Hlen.
    + destruct (loop_more_pages limit token pace p (before ++ r :: after)
                  cursor attempt res Hp) as (table & ->).
      destruct (IH (cursor_of p) 0 table) as (e & evs & -> & Hlen).
      eexists _, _. split; [reflexivity|].
      change (length (UsersList limit cursor token
                :: requests ((if pace then [Sleep (seconds 1)] else []) ++ evs))
              = S (S (length before))).
      rewrite requests_pacing. simpl. by rewrite Hlen.
Qed.

Lemma failed_at script cursor (attempt : Z) res :
  failed (usersListLoop limit token pace script cursor attempt res).1.1 = true →
  ∃ before r after,
    script = before ++ r :: after
    ∧ Forall (λ r, retryable r || more_pages r = true) before
    ∧ bad_status r || lacks_ok r || undecodable r = true.
Proof.
  revert cursor attempt res.
  induction script as [|p script IH]; intros cursor attempt res; [done|].
  destruct (result_classes p) as [Hr | [[Hr Ht] | [Hr Hs]]].
  - destruct (loop_retry limit token pace p script cursor attempt res Hr)
      as (d & _ & ->).
    specialize (IH cursor (attempt + 1) res).
    destruct (usersListLoop _ _ _ script _ _ _) as [[o evs] rest]. simpl in *.
    intros Hf. destruct (IH Hf) as (before & r & after & -> & Hb & Ht).
    exists (p :: before), r, after. split; [done|]. split; [|done].
    constructor; [by rewrite Hr|done].
  - intros _. exists [], p, script. by repeat split.
  - destruct (String.eqb (cursor_of p) "") eqn:Hc.
    + apply String.eqb_eq in Hc.
      by destruct (loop_last_page limit token pace p script cursor attempt res Hs Hc)
        as (table & ->).
    + assert (more_pages p = true) as Hm by (unfold more_pages; by rewrite Hs, Hc).
      destruct (loop_more_pages limit token pace p script cursor attempt res Hm)
        as (table & ->).
      specialize (IH (cursor_of p) 0 table).
      destruct (usersListLoop _ _ _ script _ _ _) as [[o evs] rest]. simpl in *.
      intros Hf. destruct (IH Hf) as (before & r & after & -> & Hb & Ht).
      exists (p :: before), r, after. split; [done|]. split; [|done].
      constructor; [by rewrite Hm, orb_true_r|done].
Qed.

End pagination.
End client_claims.

Lemma one_request_for_each_page_witness :
  ∃ table evs,
    usersListLoop 200 "xoxp-1" true
      [page [{| Id := "U1"; Profile_Email := "ann@example.org" |}] "A";
       page [{| Id := "U2"; Profile_Email := "bob@example.org" |}] ""] "" 0 ∅
    = (Returns table, evs, [])
    ∧ requests evs = [UsersList 200 "" "xoxp-1"; UsersList 200 "A" "xoxp-1"].
Proof.
  destruct (one_request_for_each_page 200 "xoxp-1" true
              [page [{| Id := "U1"; Profile_Email := "ann@example.org" |}] "A"]
              (page [{| Id := "U2"; Profile_Email := "bob@example.org" |}] "") [])
    as [(table & evs & Hloop & Hreq & _) _].
  - repeat constructor.
  - reflexivity.
  - reflexivity.
  - exists table, evs. split; [exact Hloop | exact Hreq].
Defined.

(** C5 as stated fails on a page that says [ok] and does not decode: the
    status is 200, [ok] is true, and the client returns the decoder's
    error. *)
Lemma fetch_fails_on_mistyped_page :
  usersListLoop 200 "xoxp-1" true [ok_but_mistyped] "" 0 ∅
  = (Fails (BodyError "json: cannot unmarshal number into Go struct field .members of type []cmd.SlackUser"),
     [UsersList 200 "" "xoxp-1"], [])
  ∧ bad_status ok_but_mistyped = false
  ∧ lacks_ok ok_but_mistyped = false.
Proof. repeat split. Qed.

(** *** Retries *)

Section retry_facts.

Lemma transport_error_backoff (attempt : Z) (err : string) :
  0 ≤ attempt →
  attemptOnce attempt (DoErr err) = Retry (2 ^ Z.min attempt 3 * Second).
Proof. intros H. simpl. by destruct (backoff_exponential attempt H) as [-> _]. Qed.

Lemma server_error_backoff (attempt : Z) (resp : Response PageBody) :
  0 ≤ attempt → 500 ≤ StatusCode resp →
  attemptOnce attempt (DoOk resp) = Retry (2 ^ Z.min attempt 3 * Second).
Proof.
  intros H H500. simpl.
  destruct (Z.eqb_spec (StatusCode resp) 429); [lia|].
  destruct (Z.geb_spec (StatusCode resp) 500); [|lia].
  by destruct (backoff_exponential attempt H) as [-> _].
Qed.

Lemma sleeps_retry (request : event) (d : Z) (evs : list event) :
  is_request request = true → sleeps (request :: Sleep d :: evs) = d :: sleeps evs.
Proof. by destruct request. Qed.

(** Transport errors in a row: the waits double from one second up to
    eight and stay there, and the client asks again after each. *)
Lemma transport_errors_backoff (limit : Z) (token : string) (pace : bool)
    (errs : list string) (cursor : string) (attempt : Z)
    (res : gmap string string) :
  0 ≤ attempt →
  ∃ evs,
    usersListLoop limit token pace (map DoErr errs) cursor attempt res
    = (Blocked, evs, [])
    ∧ sleeps evs
      = map (λ i, 2 ^ Z.min (attempt + Z.of_nat i) 3 * Second)
          (seq 0 (length errs)).
Proof.
  revert attempt. induction errs as [|err errs IH]; intros attempt Hpos.
  - eexists. split; reflexivity.
  - destruct (IH (attempt + 1)) as (evs & Hloop & Hsleeps); [lia|].
    simpl map at 1. rewrite loop_cons, transport_error_backoff, Hloop by done.
    eexists. split; [reflexivity|].
    rewrite sleeps_retry, Hsleeps by done. simpl.
    rewrite Z.add_0_r. f_equal.
    rewrite <- seq_shift, map_map. apply map_ext. intros i.
    do 3 f_equal. lia.
Qed.

Lemma Atoi_empty : Atoi "" = None.
Proof. reflexivity. Qed.

(** The wait after HTTP 429 is the header's integer, or 1 when [Atoi] fails
    on it; an absent header reads as the empty string, on which [Atoi]
    fails too. *)
Lemma rate_limit_wait (attempt : Z) (resp : Response PageBody) :
  StatusCode resp = 429 →
  attemptOnce attempt (DoOk resp)
  = Retry (seconds (default 1 (Atoi (RetryAfter resp)))).
Proof.
  intros Hs. unfold attemptOnce. rewrite Hs. simpl.
  destruct (String.eqb_spec (RetryAfter resp) "") as [->|]; [done|].
  by destruct (Atoi (RetryAfter resp)).
Qed.

(** As long as the header's integer is at most 9223372036 in absolute
    value, the wait is that many seconds. *)
Lemma rate_limit_wait_exact (attempt : Z) (resp : Response PageBody) (n : Z) :
  StatusCode resp = 429 →
  Atoi (RetryAfter resp) = Some n →
  -9223372036 ≤ n ≤ 9223372036 →
  attemptOnce attempt (DoOk resp) = Retry (n * Second).
Proof.
  intros Hs Hn Hr. rewrite rate_limit_wait, Hn by done. simpl.
  by rewrite seconds_exact.
Qed.

Lemma rate_limit_wait_default (attempt : Z) (resp : Response PageBody) :
  StatusCode resp = 429 →
  Atoi (RetryAfter resp) = None →
  attemptOnce attempt (DoOk resp) = Retry (1 * Second).
Proof. intros Hs Hn. rewrite rate_limit_wait, Hn by done. reflexivity. Qed.

(** HTTP 429 with [Retry-After: 2], then a page: one sleep of two seconds
    between the two requests, and the members of the page in the table. *)
Lemma rate_limited_then_served :
  usersListLoop 200 "xoxp-1" true
    [status 429 "2"; page [{| Id := "U1"; Profile_Email := "ann@example.org" |}] ""]
    "" 0 ∅
  = (Returns {["U1" := "ann@example.org"]},
     [UsersList 200 "" "xoxp-1"; Sleep (2 * Second); UsersList 200 "" "xoxp-1"],
     []).
Proof. reflexivity. Qed.

(** C3: the claim holds of every [Retry-After] up to 9223372036 seconds
    ([rate_limit_wait_exact]) and of the exponential delays
    ([transport_error_backoff], [server_error_backoff],
    [retried_without_end]); it fails beyond.  [Retry-After: 9223372037] is
    an integer number of seconds that [Atoi] accepts, but
    [time.Duration(waitSec) * time.Second] overflows 64 bits: the duration
    handed to [time.Sleep] is negative, so the client does not wait at all
    before it asks again. *)
Theorem retry_after_wait_overflows :
  Atoi "9223372037" = Some 9223372037
  ∧ attemptOnce 0 (status 429 "9223372037") = Retry (-9223372036709551616)
  ∧ usersListLoop 200 "xoxp-1" true
      [status 429 "9223372037";
       page [{| Id := "U1"; Profile_Email := "ann@example.org" |}] ""]
      "" 0 ∅
    = (Returns {["U1" := "ann@example.org"]},
       [UsersList 200 "" "xoxp-1"; Sleep (-9223372036709551616);
        UsersList 200 "" "xoxp-1"],
       []).
Proof. repeat split. Qed.

End retry_facts.

(** ** Strings *)

Section string_facts.
Local Open Scope string_scope.

Lemma substring_all (s : string) : substring 0 (String.length s) s = s.
Proof. induction s as [|c s IH]; simpl; [done|]. by rewrite IH. Qed.

Lemma substring_split (s : string) (i : nat) :
  (i ≤ String.length s)%nat →
  s = substring 0 i s ++ substring i (String.length s - i) s.
Proof.
  revert i. induction s as [|c s IH]; intros i Hi.
  - simpl in Hi. assert (i = 0%nat) as -> by lia. done.
  - destruct i as [|i]; simpl.
    + by rewrite substring_all.
    + change (String c s
              = String c (substring 0 i s ++ substring i (String.length s - i) s)).
      f_equal. apply IH. simpl in Hi. lia.
Qed.

Lemma HasSuffix_app (s suffix : string) :
  HasSuffix s suffix = true → ∃ pre, s = pre ++ suffix.
Proof.
  unfold HasSuffix. intros H. apply andb_true_iff in H as [Hle Heq].
  apply Nat.leb_le in Hle. apply String.eqb_eq in Heq.
  pose proof (substring_split s (String.length s - String.length suffix)) as Hsplit.
  replace (String.length s - (String.length s - String.length suffix))%nat
    with (String.length suffix) in Hsplit by lia.
  rewrite Heq in Hsplit. eexists. apply Hsplit. lia.
Qed.

Lemma Split_nonempty (s : string) (sep : ascii) : ∃ p ps, Split s sep = p :: ps.
Proof.
  induction s as [|c s (p & ps & IH)]; simpl; [by eexists _, _|].
  destruct (Ascii.eqb c sep); [by eexists _, _|]. rewrite IH. by eexists _, _.
Qed.

Lemma Split_app (pre t : string) (sep : ascii) :
  Split (pre ++ String sep t) sep = (Split pre sep ++ Split t sep)%list.
Proof.
  induction pre as [|c pre IH]; simpl.
  - by rewrite Ascii.eqb_refl.
  - rewrite IH. destruct (Ascii.eqb c sep); [done|].
    by destruct (Split_nonempty pre sep) as (p & ps & ->).
Qed.

Lemma extension_of_suffix (url ext : string) :
  Split ext "." = [ext] →
  HasSuffix url (String "." ext) = true →
  "." ++ last_part (Split url ".") = String "." ext.
Proof.
  intros Hext Hs. apply HasSuffix_app in Hs as [pre ->].
  rewrite Split_app, Hext. unfold last_part. by rewrite last_last.
Qed.

(** The extension [downloadPictures] computes for an allowed URL is the
    suffix the URL was allowed for. *)
Lemma extension_allowed (url : string) :
  allowed url = true →
  ∃ ext, (ext = ".jpg" ∨ ext = ".png")
         ∧ HasSuffix url ext = true
         ∧ "." ++ last_part (Split url ".") = ext.
Proof.
  unfold allowed. intros H. apply andb_true_iff in H as [_ H].
  apply orb_true_iff in H as [H | H].
  - exists ".jpg". split; [by left|]. split; [done|].
    by apply (extension_of_suffix url "jpg").
  - exists ".png". split; [by right|]. split; [done|].
    by apply (extension_of_suffix url "png").
Qed.

Lemma length_app_string (s t : string) :
  String.length (s ++ t) = (String.length s + String.length t)%nat.
Proof. induction s as [|c s IH]; simpl; [done|]. by rewrite IH. Qed.

(** Whether a string ends in a suffix is decided by any of its ends that
    is as long as the suffix. *)
Lemma HasSuffix_end (pre s suffix : string) :
  (String.length suffix ≤ String.length s)%nat →
  HasSuffix (pre ++ s) suffix = HasSuffix s suffix.
Proof.
  intros Hle. induction pre as [|c pre IH]; [done|].
  rewrite <- IH. unfold HasSuffix.
  change (String c pre ++ s) with (String c (pre ++ s)).
  pose proof (length_app_string pre s) as Hlen.
  simpl String.length.
  replace (S (String.length (pre ++ s)) - String.length suffix)%nat
    with (S (String.length (pre ++ s) - String.length suffix)) by lia.
  simpl substring.
  replace (String.length suffix <=? S (String.length (pre ++ s)))%nat with true
    by (symmetry; apply Nat.leb_le; lia).
  replace (String.length suffix <=? String.length (pre ++ s))%nat with true
    by (symmetry; apply Nat.leb_le; lia).
  done.
Qed.

(** The name of a picture is not the name of a directory. *)
Lemma picture_not_dir (userid ext : string) :
  ext = ".jpg" ∨ ext = ".png" →
  is_dir ("profile_pictures/" ++ userid ++ ext) = false.
Proof.
  intros Hext. unfold is_dir.
  rewrite HasSuffix_end.
  - rewrite HasSuffix_end; [by destruct Hext as [-> | ->]|].
    destruct Hext as [-> | ->]; simpl; lia.
  - rewrite length_app_string. destruct Hext as [-> | ->]; simpl; lia.
Qed.

Lemma stored_created (name : string) :
  is_dir name = false → stored (created name) = created name.
Proof. intros H. unfold stored, created. simpl. by rewrite H. Qed.

End string_facts.

(** ** The archive pipeline *)

Section pipeline_facts.
Context `{L : GoLib}.

Ltac run := unfold mbind, M_bind, mret, M_ret, fail, global, Open, Create,
              CreateHeader, logged, Write, Do in *; simpl in *.

Lemma bind_eq {B A A'} (c : M B A) (k : A → M B A') (st : State B) :
  (c ≫= k) st
  = match c st with
    | (Returns a, st') => k a st'
    | (Fails e, st') => (Fails e, st')
    | (Blocked, st') => (Blocked, st')
    end.
Proof. reflexivity. Qed.

(** *** Entries made with [Create] *)

(** An entry that is not a directory is begun with the header [Create]
    makes, and takes the bytes written to it. *)
Lemma Create_then_Write {B A} (name : string) (b : list Byte.byte)
    (k : M B A) (st : State B) :
  is_dir name = false →
  (Create name;; logged (Write b);; k) st
  = if header_ok (created name) then
      k {| zip := {| header := created name; written := b |} :: zip st;
           script := script st; events := events st; globals := globals st |}
    else (Fails CreateError, st).
Proof.
  intros Hdir. unfold Create, CreateHeader, logged, Write, mbind, M_bind.
  destruct (header_ok (created name)); [|done].
  cbn [zip header written Name stored created app script events globals].
  rewrite Hdir. cbn [andb]. by rewrite <- (stored_created name Hdir) at 2.
Qed.

(** *** [downloadPictures]: one record *)

Lemma downloadPicture_allowed (m profile : gmap string value)
    (userid imageURL : string) (st : State (list Byte.byte)) :
  m !! "id" = Some (Str userid) →
  m !! "profile" = Some (Map profile) →
  profile !! "image_original" = Some (Str imageURL) →
  allowed imageURL = true →
  NewRequest_ok imageURL = true →
  downloadPicture (Some m) st
  = let name := ("profile_pictures/" ++ userid ++ "."
                 ++ last_part (Split imageURL "."))%string in
    let asked rest z :=
      {| zip := z; script := rest; events := events st ++ [Get imageURL];
         globals := globals st |} in
    match script st with
    | [] => (Blocked, asked [] (zip st))
    | DoErr _ :: rest => (Returns (Some m), asked rest (zip st))
    | DoOk response :: rest =>
        if header_ok (created name) then
          (Returns (setProfile m profile "image_path" (Str name)),
           asked rest ({| header := created name; written := Body response |} :: zip st))
        else (Fails CreateError, asked rest (zip st))
    end.
Proof.
  intros Hid Hp Hurl Hok Hreq. unfold downloadPicture.
  rewrite Hid, Hp, Hurl, Hok, Hreq. cbv zeta.
  destruct (extension_allowed imageURL Hok) as (ext & Hext & _ & ->).
  pose proof (picture_not_dir userid ext Hext) as Hdir.
  cbn [negb]. rewrite bind_eq. unfold Do.
  destruct (script st) as [|[err|response] rest]; try reflexivity.
  rewrite (Create_then_Write _ _ _ _ Hdir).
  by destruct (header_ok _).
Qed.

Lemma downloadPicture_not_allowed (m profile : gmap string value)
    (userid : string) (st : State (list Byte.byte)) :
  m !! "id" = Some (Str userid) →
  m !! "profile" = Some (Map profile) →
  (∀ imageURL, profile !! "image_original" = Some (Str imageURL) →
               allowed imageURL = false) →
  downloadPicture (Some m) st = (Returns (Some m), st).
Proof.
  intros Hid Hp Hno. unfold downloadPicture. rewrite Hid, Hp.
  destruct (profile !! "image_original") as [[]|]; try done.
  by rewrite (Hno s).
Qed.

(** C7, as amended.  For a record with a string [id] and a [profile]:
    when [image_original] is a URL that starts with
    https://avatars.slack-edge.com/, ends in .jpg or .png, and is accepted by
    [http.NewRequest], one GET of that URL is issued and one result of the
    transport is used.  If the result is a response, and the zip writer
    accepts the name profile_pictures/<id><extension>, with the extension the
    URL ends in, an entry of that name is added to the archive with the body
    of the response, and [image_path] of the profile is set to that name, all
    else in the record being kept.  If the result is a transport error, the
    record is returned as it was and nothing is added.  When
    [image_original] is anything else, nothing is asked, the record is
    returned as it was and nothing is added. *)
Theorem picture_stored_when_fetched (m profile : gmap string value)
    (userid : string) (st : State (list Byte.byte)) :
  m !! "id" = Some (Str userid) →
  m !! "profile" = Some (Map profile) →
  (∀ imageURL,
     profile !! "image_original" = Some (Str imageURL) →
     allowed imageURL = true →
     NewRequest_ok imageURL = true →
     ∃ ext,
       (ext = ".jpg" ∨ ext = ".png")
       ∧ HasSuffix imageURL ext = true
       ∧ (∀ response rest,
            script st = DoOk response :: rest →
            header_ok (created ("profile_pictures/" ++ userid ++ ext)%string) = true →
            ∃ m' profile',
              downloadPicture (Some m) st
              = (Returns (Some m'),
                 {| zip := {| header := created ("profile_pictures/" ++ userid ++ ext)%string;
                              written := Body response |} :: zip st;
                    script := rest;
                    events := events st ++ [Get imageURL];
                    globals := globals st |})
              ∧ m' !! "profile" = Some (Map profile')
              ∧ profile' !! "image_path"
                = Some (Str ("profile_pictures/" ++ userid ++ ext)%string)
              ∧ (∀ k, k ≠ "image_path" → profile' !! k = profile !! k)
              ∧ (∀ k, k ≠ "profile" → m' !! k = m !! k))
       ∧ (∀ err rest,
            script st = DoErr err :: rest →
            downloadPicture (Some m) st
            = (Returns (Some m),
               {| zip := zip st; script := rest;
                  events := events st ++ [Get imageURL];
                  globals := globals st |})))
  ∧ ((∀ imageURL, profile !! "image_original" = Some (Str imageURL) →
                  allowed imageURL = false) →
     downloadPicture (Some m) st = (Returns (Some m), st)).
Proof.
  intros Hid Hp. split.
  - intros imageURL Hurl Hok Hreq.
    destruct (extension_allowed imageURL Hok) as (ext & Hext & Hsuf & Heq).
    exists ext. split; [done|]. split; [done|].
    rewrite (downloadPicture_allowed m profile userid imageURL st) by done.
    rewrite Heq. split.
    + intros response rest -> Hh. cbv zeta. rewrite Hh.
      eexists _, _. unfold setProfile.
      split; [reflexivity|].
      split; [by rewrite lookup_insert_eq|].
      split; [by rewrite lookup_insert_eq|].
      split; intros k Hk; by rewrite lookup_insert_ne.
    + by intros err rest ->.
  - intros Hno. by apply (downloadPicture_not_allowed m profile userid).
Qed.

(** *** What a step adds to the archive *)

Lemma grows_refl {B} (st : State B) : grows st st.
Proof. by exists []. Qed.

Lemma grows_trans {B} (st1 st2 st3 : State B) :
  grows st1 st2 → grows st2 st3 → grows st1 st3.
Proof.
  intros [n1 H1] [n2 H2]. exists (n2 ++ n1). by rewrite H2, H1, app_assoc.
Qed.

Lemma downloadPicture_grows (u : user) (st : State (list Byte.byte)) :
  grows st (downloadPicture u st).2.
Proof.
  destruct u as [m|]; [|apply grows_refl]. unfold downloadPicture.
  destruct (m !! "id") as [[| | | userid | |]|]; try apply grows_refl.
  destruct (m !! "profile") as [[| | | | |profile]|]; try apply grows_refl.
  destruct (profile !! "image_original") as [[| | | url | |]|]; try apply grows_refl.
  destruct (allowed url); [|apply grows_refl].
  destruct (NewRequest_ok url); [|apply grows_refl]. cbn [negb].
  rewrite bind_eq. unfold Do.
  destruct (script st) as [|[err|response] rest];
    [by exists [] | by exists [] |].
  unfold Create, CreateHeader, logged, Write, mbind, M_bind, mret, M_ret.
  destruct (header_ok _); [|by exists []].
  cbn [zip]. destruct (_ && _); by eexists [_].
Qed.

Lemma downloadAll_grows (data : list user) (st : State (list Byte.byte)) :
  grows st (downloadAll data st).2.
Proof.
  revert st. induction data as [|u data IH]; intros st; [apply grows_refl|].
  rewrite downloadAll_cons.
  pose proof (downloadPicture_grows u st) as H1.
  destruct (downloadPicture u st) as [[u'|e|] st1]; try done.
  pose proof (IH st1) as H2.
  destruct (downloadAll data st1) as [[rest|e|] st2];
    by apply (grows_trans st st1 st2).
Qed.

Lemma downloadPictures_grows (input : list Byte.byte) (st : State (list Byte.byte)) :
  grows st (downloadPictures input st).2.
Proof.
  unfold downloadPictures. destruct (Decode input) as [[l|]|]; run.
  - pose proof (downloadAll_grows l st) as [new Hnew].
    destruct (downloadAll l st) as [[l'|e|] st1]; simpl in *;
      [|by exists new..].
    destruct (header_ok _); simpl; [|by exists new].
    eexists (_ :: new). by rewrite Hnew.
  - destruct (header_ok _); simpl; [by eexists [_] | by exists []].
  - apply grows_refl.
Qed.

(** *** [fetchUserEmails] and [processUsersJson] *)

Lemma fetchUserEmails_eq (token : string) (st : State PageBody) :
  fetchUserEmails token st
  = let limit := boundPageLimit (usersPageLimit (globals st)) in
    let r := usersListLoop limit token (usersPace1RPS (globals st)) (script st) "" 0 ∅ in
    (r.1.1,
     {| zip := zip st; script := r.2; events := events st ++ r.1.2;
        globals := {| emailsApiToken := emailsApiToken (globals st);
                      usersPageLimit := limit;
                      usersPace1RPS := usersPace1RPS (globals st) |} |}).
Proof.
  unfold fetchUserEmails. simpl.
  by destruct (usersListLoop _ _ _ _ _ _ _) as [[o evs] rest].
Qed.

Lemma processUsersJson_eq (input : list Byte.byte) (token : string)
    (st : State PageBody) (data : users) :
  Decode input = Some data →
  processUsersJson input token st
  = match fetchUserEmails token st with
    | (Returns emails, st') =>
        if (len data =? 0)%nat then (Fails NoUsers, st')
        else Write (Encode (updateUsers emails data)) st'
    | (Fails e, st') => (Fails e, st')
    | (Blocked, st') => (Blocked, st')
    end.
Proof.
  intros Hd. unfold processUsersJson. rewrite Hd.
  unfold mbind, M_bind.
  destruct (fetchUserEmails token st) as [[emails|e|] st']; try done.
  by destruct (len data =? 0)%nat.
Qed.

(** What [processUsersJson] writes once the table is there: the collection
    with every record updated, encoded. *)
Lemma processUsersJson_writes (input : list Byte.byte) (token : string)
    (st st1 : State PageBody) (data : users) (emails : gmap string string) :
  Decode input = Some data →
  len data ≠ 0%nat →
  fetchUserEmails token st = (Returns emails, st1) →
  processUsersJson input token st = Write (Encode (updateUsers emails data)) st1.
Proof.
  intros Hd Hlen Hf. rewrite (processUsersJson_eq input token st data Hd), Hf.
  by destruct (Nat.eqb_spec (len data) 0).
Qed.

(** [processUsersJson] writes, if at all, into the entry begun last. *)
Lemma processUsersJson_zip (input : list Byte.byte) (token : string)
    (st st' : State PageBody) (e0 : Entry) (z : list Entry) :
  zip st = e0 :: z →
  processUsersJson input token st = (Returns tt, st') →
  ∃ e, header e = header e0 ∧ zip st' = e :: z.
Proof.
  intros Hz. unfold processUsersJson.
  destruct (Decode input) as [data|]; [|done].
  unfold mbind, M_bind. rewrite fetchUserEmails_eq. simpl.
  destruct (usersListLoop _ _ _ _ _ _ _) as [[[emails|e|] evs] rest]; simpl; try done.
  destruct (len data =? 0)%nat; [done|]. unfold Write. cbn [zip]. rewrite Hz.
  destruct (_ && _); [done|].
  intros [= <-]. cbn [zip]. eexists. split; [|reflexivity]. reflexivity.
Qed.

(** *** The loops over the entries *)

Lemma put_nil {B} (st : State B) : put [] st = st.
Proof. by destruct st. Qed.

Lemma fetchEmailsFiles_cons (file : File) (files : list File) (st : State PageBody) :
  fetchEmailsFiles (file :: files) st
  = match stream file with
    | None => (Fails OpenError, st)
    | Some inReader =>
        if header_ok (Header file) then
          let begun written :=
            {| zip := {| header := stored (Header file); written := written |} :: zip st;
               script := script st; events := events st; globals := globals st |} in
          if String.eqb (Name (Header file)) "users.json" then
            match processUsersJson inReader (emailsApiToken (globals st)) (begun []) with
            | (Returns _, st1) => fetchEmailsFiles files st1
            | (Fails e, st1) => (Fails e, st1)
            | (Blocked, st1) => (Blocked, st1)
            end
          else if is_dir (Name (Header file)) && negb (length inReader =? 0)%nat then
            (Fails WriteError, begun [])
          else fetchEmailsFiles files (begun inReader)
        else (Fails CreateError, st)
    end.
Proof.
  cbn [fetchEmailsFiles].
  unfold mbind, M_bind, mret, M_ret, fail, global, Open, CreateHeader, Write.
  destruct (stream file) as [inReader|]; [|done].
  destruct (header_ok (Header file)); [|done].
  destruct (String.eqb (Name (Header file)) "users.json"); [done|].
  cbn [zip header written Name stored app script events globals].
  unfold mret, M_ret. by destruct (_ && _).
Qed.

Lemma fetchProfilePicsFiles_cons (file : File) (files : list File)
    (st : State (list Byte.byte)) :
  fetchProfilePicsFiles (file :: files) st
  = match stream file with
    | None => (Fails OpenError, st)
    | Some inReader =>
        if String.eqb (Name (Header file)) "users.json" then
          match downloadPictures inReader st with
          | (Returns _, st1) => fetchProfilePicsFiles files st1
          | (Fails e, st1) => (Fails e, st1)
          | (Blocked, st1) => (Blocked, st1)
          end
        else if header_ok (Header file) then
          let begun written :=
            {| zip := {| header := stored (Header file); written := written |} :: zip st;
               script := script st; events := events st; globals := globals st |} in
          if is_dir (Name (Header file)) && negb (length inReader =? 0)%nat then
            (Fails WriteError, begun [])
          else fetchProfilePicsFiles files (begun inReader)
        else (Fails CreateError, st)
    end.
Proof.
  cbn [fetchProfilePicsFiles].
  unfold mbind, M_bind, mret, M_ret, fail, Open, CreateHeader, Write.
  destruct (stream file) as [inReader|]; [|done].
  destruct (String.eqb (Name (Header file)) "users.json"); [done|].
  destruct (header_ok (Header file)); [|done].
  cbn [zip header written Name stored app script events globals].
  unfold mret, M_ret. by destruct (_ && _).
Qed.

Lemma copyable_inv (f : File) :
  copyable f = true →
  ∃ inReader, stream f = Some inReader
              ∧ header_ok (Header f) = true
              ∧ is_dir (Name (Header f)) && negb (length inReader =? 0)%nat = false
              ∧ copy f = {| header := stored (Header f); written := inReader |}.
Proof.
  unfold copyable, copy. destruct (stream f) as [inReader|]; [|done].
  intros H. apply andb_true_iff in H as [Hok Hw]. apply negb_true_iff in Hw.
  by exists inReader.
Qed.

Lemma put_cons {B} (e : Entry) (es : list Entry) (st : State B) :
  put (e :: es) st
  = put es {| zip := e :: zip st; script := script st; events := events st;
              globals := globals st |}.
Proof. unfold put. simpl. by rewrite <- app_assoc. Qed.

Lemma fetchEmailsFiles_copies (files rest : list File) (st : State PageBody) :
  Forall (λ f, Name (Header f) ≠ "users.json" ∧ copyable f = true) files →
  fetchEmailsFiles (files ++ rest) st = fetchEmailsFiles rest (put (map copy files) st).
Proof.
  intros Hfiles. revert st.
  induction Hfiles as [|f files [Hf Hc] _ IH]; intros st.
  - by rewrite put_nil.
  - destruct (copyable_inv f Hc) as (inReader & Hs & Hok & Hw & Hcopy).
    rewrite <- app_comm_cons, fetchEmailsFiles_cons, Hs, Hok.
    apply String.eqb_neq in Hf. rewrite Hf. cbv zeta. rewrite Hw, IH. simpl map.
    by rewrite put_cons, Hcopy.
Qed.

Lemma fetchProfilePicsFiles_copies (files rest : list File)
    (st : State (list Byte.byte)) :
  Forall (λ f, Name (Header f) ≠ "users.json" ∧ copyable f = true) files →
  fetchProfilePicsFiles (files ++ rest) st
  = fetchProfilePicsFiles rest (put (map copy files) st).
Proof.
  intros Hfiles. revert st.
  induction Hfiles as [|f files [Hf Hc] _ IH]; intros st.
  - by rewrite put_nil.
  - destruct (copyable_inv f Hc) as (inReader & Hs & Hok & Hw & Hcopy).
    rewrite <- app_comm_cons, fetchProfilePicsFiles_cons, Hs, Hok.
    apply String.eqb_neq in Hf. rewrite Hf. cbv zeta. rewrite Hw, IH. simpl map.
    by rewrite put_cons, Hcopy.
Qed.

(** An entry that cannot be copied, met before any users.json, ends the
    run. *)
Lemma fetchEmailsFiles_stops (file : File) (after : list File) (st : State PageBody) :
  Name (Header file) ≠ "users.json" → copyable file = false →
  ∃ e st', fetchEmailsFiles (file :: after) st = (Fails e, st')
           ∧ events st' = events st.
Proof.
  intros Hf Hc. rewrite fetchEmailsFiles_cons. unfold copyable in Hc.
  destruct (stream file) as [inReader|]; [|by eexists _, _].
  apply String.eqb_neq in Hf. rewrite Hf.
  destruct (header_ok (Header file)); [|by eexists _, _].
  cbv zeta. simpl in Hc. apply negb_false_iff in Hc. rewrite Hc. by eexists _, _.
Qed.

Lemma fetchProfilePicsFiles_stops (file : File) (after : list File)
    (st : State (list Byte.byte)) :
  Name (Header file) ≠ "users.json" → copyable file = false →
  ∃ e st', fetchProfilePicsFiles (file :: after) st = (Fails e, st')
           ∧ events st' = events st.
Proof.
  intros Hf Hc. rewrite fetchProfilePicsFiles_cons. unfold copyable in Hc.
  destruct (stream file) as [inReader|]; [|by eexists _, _].
  apply String.eqb_neq in Hf. rewrite Hf.
  destruct (header_ok (Header file)); [|by eexists _, _].
  cbv zeta. simpl in Hc. apply negb_false_iff in Hc. rewrite Hc. by eexists _, _.
Qed.

(** The entries up to the first that cannot be copied. *)
Lemma first_not_copyable (files : list File) :
  ¬ Forall (λ f, copyable f = true) files →
  ∃ before file after,
    files = before ++ file :: after
    ∧ Forall (λ f, copyable f = true) before
    ∧ copyable file = false.
Proof.
  induction files as [|f files IH]; intros Hnot.
  - destruct Hnot. constructor.
  - destruct (copyable f) eqn:Hc.
    + destruct IH as (before & file & after & -> & Hb & Hfile).
      { intros Hall. apply Hnot. by constructor. }
      exists (f :: before), file, after. split; [done|]. split; [|done].
      by constructor.
    + by exists [], f, files.
Qed.

Lemma fetchEmailsFiles_keeps (files : list File) (st st' : State PageBody) :
  fetchEmailsFiles files st = (Returns tt, st') →
  ∃ new, zip st' = new ++ zip st
         ∧ ∀ f, f ∈ files → Name (Header f) ≠ "users.json" → copy f ∈ new.
Proof.
  revert st. induction files as [|f files IH]; intros st.
  - intros [= <-]. exists []. split; [done|]. intros f Hf. by apply elem_of_nil in Hf.
  - rewrite fetchEmailsFiles_cons. unfold copy at 1.
    destruct (stream f) as [inReader|] eqn:Hs; [|done].
    destruct (header_ok (Header f)); [|done]. cbv zeta.
    destruct (String.eqb (Name (Header f)) "users.json") eqn:Hname.
    + apply String.eqb_eq in Hname.
      destruct (processUsersJson _ _ _) as [[[]|e|] st1] eqn:Hp; try done.
      apply (processUsersJson_zip _ _ _ _ {| header := stored (Header f); written := [] |}
               (zip st)) in Hp as (e1 & _ & Hz1); [|done].
      intros Hrest. destruct (IH st1 Hrest) as (new & Hz & Hin).
      exists (new ++ [e1]). split; [by rewrite Hz, Hz1, <- app_assoc|].
      intros f' Hf' Hn. apply elem_of_cons in Hf' as [-> | Hf'].
      * done.
      * apply elem_of_app. left. by apply Hin.
    + destruct (_ && _); [done|].
      intros Hrest. destruct (IH _ Hrest) as (new & Hz & Hin). simpl in Hz.
      exists (new ++ [copy f]). unfold copy at 1. rewrite Hs.
      split; [by rewrite Hz, <- app_assoc|].
      intros f' Hf' Hn. apply elem_of_cons in Hf' as [-> | Hf'].
      * apply elem_of_app. right. apply list_elem_of_singleton.
        unfold copy. by rewrite Hs.
      * apply elem_of_app. left. by apply Hin.
Qed.

Lemma fetchProfilePicsFiles_keeps (files : list File)
    (st st' : State (list Byte.byte)) :
  fetchProfilePicsFiles files st = (Returns tt, st') →
  ∃ new, zip st' = new ++ zip st
         ∧ ∀ f, f ∈ files → Name (Header f) ≠ "users.json" → copy f ∈ new.
Proof.
  revert st. induction files as [|f files IH]; intros st.
  - intros [= <-]. exists []. split; [done|]. intros f Hf. by apply elem_of_nil in Hf.
  - rewrite fetchProfilePicsFiles_cons.
    destruct (stream f) as [inReader|] eqn:Hs; [|done].
    destruct (String.eqb (Name (Header f)) "users.json") eqn:Hname.
    + pose proof (downloadPictures_grows inReader st) as [new1 Hz1].
      destruct (downloadPictures _ _) as [[[]|e|] st1]; try done. simpl in Hz1.
      intros Hrest. destruct (IH st1 Hrest) as (new & Hz & Hin).
      exists (new ++ new1). split; [by rewrite Hz, Hz1, <- app_assoc|].
      intros f' Hf' Hn. apply elem_of_cons in Hf' as [-> | Hf'].
      * apply String.eqb_eq in Hname. done.
      * apply elem_of_app. left. by apply Hin.
    + destruct (header_ok (Header f)); [|done]. cbv zeta.
      destruct (_ && _); [done|].
      intros Hrest. destruct (IH _ Hrest) as (new & Hz & Hin). simpl in Hz.
      exists (new ++ [copy f]). unfold copy at 1. rewrite Hs.
      split; [by rewrite Hz, <- app_assoc|].
      intros f' Hf' Hn. apply elem_of_cons in Hf' as [-> | Hf'].
      * apply elem_of_app. right. apply list_elem_of_singleton.
        unfold copy. by rewrite Hs.
      * apply elem_of_app. left. by apply Hin.
Qed.

Lemma elem_of_rev {A} (x : A) (l : list A) : x ∈ l → x ∈ rev l.
Proof. rewrite !list_elem_of_In. apply in_rev. Qed.

Lemma Forall_and_split {A} (P Q : A → Prop) (l : list A) :
  Forall P l → Forall Q l → Forall (λ x, P x ∧ Q x) l.
Proof. intros HP HQ. induction HP; inversion HQ; subst; constructor; auto. Qed.

(** What [CreateHeader] changes in a header: it leaves the header as it
    was exactly when the modification time is not set and the header is not
    that of a directory with a method other than [Store]. *)
Lemma stored_same (h : FileHeader) :
  stored h = h
  ↔ Modified h = 0 ∧ (is_dir (Name h) = true → Method h = Store).
Proof.
  destruct h as [name comment method modified attrs extra].
  unfold stored. cbn [Name Comment Method Modified ExternalAttrs Extra]. split.
  - intros [= Hm Hx]. split.
    + unfold IsZero in Hx. destruct (Z.eqb_spec modified 0) as [|_]; [done|].
      apply (f_equal length) in Hx. rewrite length_app in Hx. simpl in Hx. lia.
    + intros Hd. by rewrite Hd in Hm.
  - intros [-> Hd]. cbn [IsZero Z.eqb].
    destruct (is_dir name); [by rewrite Hd|done].
Qed.

(** C1, as amended.  In both commands, an entry of the input whose name is
    not users.json is in the output of a run that finishes: with the bytes it
    had and with the header as the zip writer leaves it.  The writer keeps
    the name, the comment, the modification time and the external
    attributes.  It keeps the method, except that a directory (a name that
    ends in a slash) gets [Store].  It keeps the extra field, and appends to
    it an extended-timestamp block of nine bytes when the modification time
    is set.  The header is the input's exactly when the modification time is
    not set and the entry is not a directory with another method than
    [Store].  When no entry of the input is named users.json and every entry
    can be read and written, the run finishes, asks nothing of the network,
    and its output is the input, entry by entry: same order, same bytes,
    headers as said.  When no entry is named users.json and some entry
    cannot be read or written, the run exits with status 1. *)
Theorem other_entries_copied (g : Globals) (input : list File)
    (api : list (DoResult PageBody)) (web : list (DoResult (list Byte.byte))) :
  (∀ f out evs,
     f ∈ input → Name (Header f) ≠ "users.json" →
     fetchEmails g api input = (Finished out, evs) → copy f ∈ out)
  ∧ (∀ f out evs,
       f ∈ input → Name (Header f) ≠ "users.json" →
       fetchProfilePics g web input = (Finished out, evs) → copy f ∈ out)
  ∧ (∀ f,
       let h := Header f in
       let h' := header (copy f) in
       (∀ inReader, stream f = Some inReader → written (copy f) = inReader)
       ∧ Name h' = Name h
       ∧ Comment h' = Comment h
       ∧ Modified h' = Modified h
       ∧ ExternalAttrs h' = ExternalAttrs h
       ∧ Method h' = (if HasSuffix (Name h) "/" then Store else Method h)
       ∧ Extra h' = (if Modified h =? 0 then Extra h
                     else Extra h ++ extTimeExtra (Modified h))
       ∧ length (extTimeExtra (Modified h)) = 9%nat
       ∧ (h' = h ↔ Modified h = 0
                   ∧ (HasSuffix (Name h) "/" = true → Method h = Store)))
  ∧ (Forall (λ f, Name (Header f) ≠ "users.json") input →
     Forall (λ f, copyable f = true) input →
     fetchEmails g api input = (Finished (map copy input), [])
     ∧ fetchProfilePics g web input = (Finished (map copy input), []))
  ∧ (Forall (λ f, Name (Header f) ≠ "users.json") input →
     ¬ Forall (λ f, copyable f = true) input →
     fetchEmails g api input = (Exit 1, [])
     ∧ fetchProfilePics g web input = (Exit 1, [])).
Proof.
  split; [|split; [|split; [|split]]].
  - intros f out evs Hf Hn. unfold fetchEmails.
    destruct (fetchEmailsFiles input (start g api)) as [[[]|e|] st'] eqn:Hrun;
      simpl; try done.
    intros [= <- _]. destruct (fetchEmailsFiles_keeps _ _ _ Hrun) as (new & Hz & Hin).
    unfold archive. apply elem_of_rev. rewrite Hz. apply elem_of_app. left. by apply Hin.
  - intros f out evs Hf Hn. unfold fetchProfilePics.
    destruct (fetchProfilePicsFiles input (start g web)) as [[[]|e|] st'] eqn:Hrun;
      simpl; try done.
    intros [= <- _]. destruct (fetchProfilePicsFiles_keeps _ _ _ Hrun) as (new & Hz & Hin).
    unfold archive. apply elem_of_rev. rewrite Hz. apply elem_of_app. left. by apply Hin.
  - intros f h h'. split.
    + intros inReader Hs. unfold copy. by rewrite Hs.
    + repeat (split; [reflexivity|]). apply stored_same.
  - intros Hother Hcopy.
    pose proof (Forall_and_split _ _ _ Hother Hcopy) as Hall. split.
    + unfold fetchEmails.
      rewrite <- (app_nil_r input) at 1 2. rewrite fetchEmailsFiles_copies by done.
      simpl. unfold archive. simpl. by rewrite app_nil_r, rev_involutive.
    + unfold fetchProfilePics.
      rewrite <- (app_nil_r input) at 1 2. rewrite fetchProfilePicsFiles_copies by done.
      simpl. unfold archive. simpl. by rewrite app_nil_r, rev_involutive.
  - intros Hother Hnot.
    destruct (first_not_copyable input Hnot) as (before & file & after & -> & Hb & Hfile).
    apply Forall_app in Hother as [Hob Hoa]. apply Forall_cons in Hoa as [Hof _].
    pose proof (Forall_and_split _ _ _ Hob Hb) as Hall. split.
    + unfold fetchEmails. rewrite fetchEmailsFiles_copies by done.
      destruct (fetchEmailsFiles_stops file after
                     (put (map copy before) (start g api)) Hof Hfile)
        as (e & st' & -> & Hev).
      simpl. by rewrite Hev.
    + unfold fetchProfilePics. rewrite fetchProfilePicsFiles_copies by done.
      destruct (fetchProfilePicsFiles_stops file after
                     (put (map copy before) (start g web)) Hof Hfile)
        as (e & st' & -> & Hev).
      simpl. by rewrite Hev.
Qed.

(** C10.  When users.json decodes to a collection without records and the
    call of the API comes to an end, [processUsersJson] returns an error and
    writes nothing: the state it leaves is the state [fetchUserEmails] left,
    with every request of the fetch made.  When the fetch returned a table,
    the error is the one about the missing users.  A run of [fetch-emails]
    that reaches such an entry exits with status 1, after the requests of
    the fetch. *)
Theorem empty_collection_aborts_after_fetch (input : list Byte.byte)
    (token : string) (st : State PageBody) (data : users) :
  Decode input = Some data →
  len data = 0%nat →
  completed (fetchUserEmails token st).1 = true →
  (∃ e, processUsersJson input token st = (Fails e, (fetchUserEmails token st).2)
        ∧ ∀ emails, (fetchUserEmails token st).1 = Returns emails → e = NoUsers)
  ∧ (∀ g api before file after,
       Forall (λ f, Name (Header f) ≠ "users.json" ∧ copyable f = true) before →
       Name (Header file) = "users.json" →
       stream file = Some input →
       header_ok (Header file) = true →
       completed (fetchUserEmails (emailsApiToken g) (start g api)).1 = true →
       fetchEmails g api (before ++ file :: after)
       = (Exit 1, events (fetchUserEmails (emailsApiToken g) (start g api)).2)).
Proof.
  intros Hd Hlen Hdone. split.
  - rewrite (processUsersJson_eq input token st data Hd).
    destruct (fetchUserEmails token st) as [[emails|e|] st1]; simpl in *.
    + rewrite Hlen. simpl. exists NoUsers. by split.
    + exists e. by split.
    + done.
  - intros g api before file after Hbefore Hname Hs Hok Hdone'.
    unfold fetchEmails. rewrite fetchEmailsFiles_copies by done.
    rewrite fetchEmailsFiles_cons, Hs, Hok, Hname, String.eqb_refl. cbv zeta.
    rewrite (processUsersJson_eq input _ _ data Hd).
    rewrite fetchUserEmails_eq in Hdone' |- *. rewrite fetchUserEmails_eq. simpl in *.
    destruct (usersListLoop _ _ _ api "" 0 ∅) as [[[emails|e|] evs] rest];
      simpl in *; try done.
    by rewrite Hlen.
Qed.

Lemma fetchUserEmails_fails_at (token : string) (st : State PageBody)
    (before : list (DoResult PageBody)) (r : DoResult PageBody)
    (after : list (DoResult PageBody)) :
  script st = before ++ r :: after →
  Forall (λ r, retryable r || more_pages r = true) before →
  bad_status r || lacks_ok r || undecodable r = true →
  ∃ e evs,
    (fetchUserEmails token st).1 = Fails e
    ∧ script (fetchUserEmails token st).2 = after
    ∧ events (fetchUserEmails token st).2 = events st ++ evs
    ∧ length (requests evs) = S (length before).
Proof.
  intros Hs Hb Ht. rewrite fetchUserEmails_eq. simpl. rewrite Hs.
  destruct (fails_at (boundPageLimit (usersPageLimit (globals st))) token
              (usersPace1RPS (globals st)) before r after "" 0 ∅ Hb Ht)
    as (e & evs & -> & Hlen).
  by exists e, evs.
Qed.

(** C5, as amended.  [fetchUserEmails] returns an error exactly when, after
    results that were all retried or were pages announcing another page, a
    result comes that is of one of three kinds: a status other than 200 that
    is neither 429 nor 500 and above; HTTP 200 with a body whose [ok] is not
    true; HTTP 200 with a body on which the decoder returns an error.  The
    request that got this result is the last one.  No table is returned:
    [processUsersJson] returns the error without writing, and the run exits
    with status 1. *)
Theorem fetch_fails_exactly_when (token : string) (st : State PageBody) :
  (failed (fetchUserEmails token st).1 = true
   ↔ ∃ before r after,
       script st = before ++ r :: after
       ∧ Forall (λ r, retryable r || more_pages r = true) before
       ∧ bad_status r || lacks_ok r || undecodable r = true)
  ∧ (∀ before r after,
       script st = before ++ r :: after →
       Forall (λ r, retryable r || more_pages r = true) before →
       bad_status r || lacks_ok r || undecodable r = true →
       ∃ e evs,
         (fetchUserEmails token st).1 = Fails e
         ∧ script (fetchUserEmails token st).2 = after
         ∧ events (fetchUserEmails token st).2 = events st ++ evs
         ∧ length (requests evs) = S (length before))
  ∧ (∀ input data e,
       Decode input = Some data →
       (fetchUserEmails token st).1 = Fails e →
       processUsersJson input token st = (Fails e, (fetchUserEmails token st).2))
  ∧ (∀ g before file after input data,
       st = start g (script st) →
       token = emailsApiToken g →
       Forall (λ f, Name (Header f) ≠ "users.json" ∧ copyable f = true) before →
       Name (Header file) = "users.json" →
       stream file = Some input →
       header_ok (Header file) = true →
       Decode input = Some data →
       failed (fetchUserEmails token st).1 = true →
       fetchEmails g (script st) (before ++ file :: after)
       = (Exit 1, events (fetchUserEmails token st).2)).
Proof.
  split; [split|split; [|split]].
  - rewrite fetchUserEmails_eq. simpl. apply failed_at.
  - intros (before & r & after & Hs & Hb & Ht).
    destruct (fetchUserEmails_fails_at token st before r after Hs Hb Ht)
      as (e & evs & -> & _). done.
  - apply fetchUserEmails_fails_at.
  - intros input data e Hd Hf. rewrite (processUsersJson_eq input token st data Hd).
    destruct (fetchUserEmails token st) as [[emails|e'|] st1]; simpl in *; try done.
    by injection Hf as ->.
  - intros g before file after input data Hst -> Hbefore Hname Hs Hok Hd Hf.
    unfold fetchEmails. rewrite fetchEmailsFiles_copies by done.
    rewrite fetchEmailsFiles_cons, Hs, Hok, Hname, String.eqb_refl. cbv zeta.
    rewrite (processUsersJson_eq _ _ _ data Hd).
    rewrite Hst in Hf |- *.
    rewrite fetchUserEmails_eq in Hf |- *. rewrite fetchUserEmails_eq. simpl in *.
    destruct (usersListLoop _ _ _ (script st) "" 0 ∅) as [[[emails|e|] evs] rest];
      simpl in *; done.
Qed.

End pipeline_facts.

(** ** The statements at the sample data *)

Lemma page_size_bounded_witness :
  usersPageLimit
    (globals (fetchUserEmails "xoxp-1"
                (start {| emailsApiToken := "xoxp-1"; usersPageLimit := 5000;
                          usersPace1RPS := true |} [])).2)
  = 999.
Proof.
  destruct (page_size_bounded "xoxp-1"
              (start {| emailsApiToken := "xoxp-1"; usersPageLimit := 5000;
                        usersPace1RPS := true |} []))
    as (_ & _ & _ & _ & _ & _ & H).
  exact H.
Defined.

Lemma picture_stored_when_fetched_witness :
  ∃ m' profile',
    downloadPicture (L := literals) (Some sample_user)
      (start sample_globals
         [DoOk {| StatusCode := 200; RetryAfter := ""; Body := [Byte.xff; Byte.xd8] |}])
    = (Returns (Some m'),
       {| zip := [{| header := created "profile_pictures/U123.jpg";
                     written := [Byte.xff; Byte.xd8] |}];
          script := [];
          events := [Get sample_url];
          globals := sample_globals |})
    ∧ m' !! "profile" = Some (Map profile')
    ∧ profile' !! "image_path" = Some (Str "profile_pictures/U123.jpg").
Proof.
  destruct (picture_stored_when_fetched (L := literals) sample_user sample_profile "U123"
              (start sample_globals
                 [DoOk {| StatusCode := 200; RetryAfter := "";
                          Body := [Byte.xff; Byte.xd8] |}]))
    as [Hfetch _]; [reflexivity | reflexivity |].
  destruct (Hfetch sample_url) as (ext & Hext & Hsuf & Hok & _);
    [reflexivity | reflexivity | reflexivity |].
  destruct Hext as [-> | ->]; [|discriminate Hsuf].
  destruct (Hok _ [] eq_refl eq_refl) as (m' & profile' & Hrun & Hp & Hpath & _).
  exists m', profile'. split; [exact Hrun|]. split; [exact Hp | exact Hpath].
Defined.

(** C7 as stated fails when the transport fails: the URL of the record is
    allowed, the GET is issued, and neither an entry is added nor the
    profile changed.  The run goes on and finishes with users.json alone. *)
Lemma picture_not_stored_on_transport_error :
  allowed sample_url = true
  ∧ downloadPicture (L := literals) (Some sample_user)
      (start sample_globals [DoErr "dial tcp: i/o timeout"])
    = (Returns (Some sample_user),
       {| zip := []; script := []; events := [Get sample_url];
          globals := sample_globals |})
  ∧ fetchProfilePics (L := literals) sample_globals [DoErr "dial tcp: i/o timeout"]
      [users_json]
    = (Finished [{| header := created "users.json"; written := sample_bytes |}],
       [Get sample_url]).
Proof. split; [reflexivity|]. split; vm_compute; reflexivity. Qed.

(** C1 as stated fails on an archive with an entry that cannot be read: no
    entry is named users.json, and the run exits with status 1 without
    writing the entry that follows. *)
Lemma unreadable_entry_stops_the_run :
  Forall (λ f, Name (Header f) ≠ "users.json") [notes_txt; channels_json]
  ∧ fetchEmails (L := literals) sample_globals [] [notes_txt; channels_json]
    = (Exit 1, [])
  ∧ fetchProfilePics (L := literals) sample_globals [] [notes_txt; channels_json]
    = (Exit 1, []).
Proof. split; [repeat constructor; discriminate|]. split; reflexivity. Qed.

Lemma other_entries_copied_witness :
  fetchEmails (L := literals) sample_globals [] [general_dir; channels_json]
  = (Finished
       [{| header := {| Name := "general/"; Comment := ""; Method := 0;
                        Modified := new_year_2020; ExternalAttrs := 1106051088;
                        Extra := [Byte.x55; Byte.x54; Byte.x05; Byte.x00; Byte.x01;
                                  Byte.x00; Byte.xe1; Byte.x0b; Byte.x5e] |};
           written := [] |};
        {| header := {| Name := "channels.json"; Comment := ""; Method := 8;
                        Modified := new_year_2020; ExternalAttrs := 2175008768;
                        Extra := [Byte.x55; Byte.x54; Byte.x05; Byte.x00; Byte.x01;
                                  Byte.x00; Byte.xe1; Byte.x0b; Byte.x5e] |};
           written := [Byte.x5b; Byte.x5d; Byte.x0a] |}],
     [])
  ∧ fetchProfilePics (L := literals) sample_globals [] [general_dir; channels_json]
    = (Finished [copy general_dir; copy channels_json], [])
  ∧ copy channels_json
    ∈ [copy channels_json;
       {| header := stored (Header users_json); written := sample_bytes |}].
Proof.
  destruct (other_entries_copied (L := literals) sample_globals
              [general_dir; channels_json] [] []) as (_ & _ & _ & Hall & _).
  destruct (other_entries_copied (L := literals) sample_globals
              [channels_json; users_json]
              [page [{| Id := "U123"; Profile_Email := "ann@example.org" |}] ""] [])
    as (Hkeep & _).
  split; [|split].
  - apply Hall; repeat constructor; discriminate.
  - apply Hall; repeat constructor; discriminate.
  - apply (Hkeep channels_json _
             [UsersList 999 "" "xoxp-1"]).
    + left.
    + discriminate.
    + vm_compute. reflexivity.
Defined.

Lemma empty_collection_aborts_after_fetch_witness :
  fetchEmails (L := literals) sample_globals [page [] ""]
    [channels_json; empty_users_json]
  = (Exit 1, [UsersList 999 "" "xoxp-1"]).
Proof.
  destruct (empty_collection_aborts_after_fetch (L := literals) empty_bytes "xoxp-1"
              (start sample_globals [page [] ""]) (Some []))
    as [_ Hrun]; [reflexivity | reflexivity | reflexivity |].
  apply (Hrun sample_globals [page [] ""] [channels_json] empty_users_json []).
  - repeat constructor. discriminate.
  - reflexivity.
  - reflexivity.
  - reflexivity.
  - reflexivity.
Defined.

Lemma fetch_fails_exactly_when_witness :
  ∃ e evs,
    (fetchUserEmails "xoxp-1"
       (start sample_globals
          [DoErr "connection reset"; status 403 ""; page [] ""])).1 = Fails e
    ∧ script (fetchUserEmails "xoxp-1"
                (start sample_globals
                   [DoErr "connection reset"; status 403 ""; page [] ""])).2
      = [page [] ""]
    ∧ events (fetchUserEmails "xoxp-1"
                (start sample_globals
                   [DoErr "connection reset"; status 403 ""; page [] ""])).2
      = [] ++ evs
    ∧ length (requests evs) = 2%nat.
Proof.
  destruct (fetch_fails_exactly_when (L := literals) "xoxp-1"
              (start sample_globals
                 [DoErr "connection reset"; status 403 ""; page [] ""]))
    as (_ & Hat & _).
  apply (Hat [DoErr "connection reset"] (status 403 "") [page [] ""]).
  - reflexivity.
  - repeat constructor.
  - reflexivity.
Defined.
